(** * The Android low memory killer (drivers/staging/android/lowmemorykiller.c)

    A shallow embedding of the decision logic of the driver: the threshold
    scan over [lowmem_minfree] / [lowmem_adj], the candidate selection of the
    ENHANCED_LMK_ROUTINE, the kill loop, the early-suspend / late-resume
    swapping of the minfree table and the oom_adj auto-detection.

    C integers are integers of [Z] with the conversions written out, C arrays
    are lists read and updated by index, the module-level variables of the
    driver are the fields of [lmk_state]. *)

From Stdlib Require Import ZArith Lia List Bool.
From stdpp Require Import base numbers option list sorting.
Import ListNotations.

Local Open Scope Z_scope.

(* ================================================================== *)
(** ** C integer types *)

Module CInt.

(** Conversion to a signed two's complement integer of [w] bits. *)
Definition to_signed (w : Z) (z : Z) : Z :=
  (z + 2 ^ (w - 1)) mod 2 ^ w - 2 ^ (w - 1).

Definition to_short (z : Z) : Z := to_signed 16 z.
Definition to_int (z : Z) : Z := to_signed 32 z.

Definition INT_MIN : Z := - 2 ^ 31.
Definition INT_MAX : Z := 2 ^ 31 - 1.
Definition SHRT_MIN : Z := - 2 ^ 15.
Definition SHRT_MAX : Z := 2 ^ 15 - 1.

(** [unsigned long] / [long] of the 32-bit ARM targets of this tree. *)
Definition BITS_PER_LONG : Z := 32.
Definition to_ulong (z : Z) : Z := z mod 2 ^ BITS_PER_LONG.
Definition to_long (z : Z) : Z := to_signed BITS_PER_LONG z.

(** linux/jiffies.h:
    [time_after_eq(a,b)  = ((long)(a) - (long)(b) >= 0)],
    [time_before_eq(a,b) = time_after_eq(b,a)]. *)
Definition time_after_eq (a b : Z) : bool := 0 <=? to_long (a - b).
Definition time_before_eq (a b : Z) : bool := time_after_eq b a.

End CInt.
Export CInt.

(* ================================================================== *)
(** ** Constants of linux/oom.h and of the driver *)

(** Modelled from the spec: include/linux/oom.h is not among the sources.
    The spec calls these the old minimum (OLD_MIN), the legacy unit's maximum
    and SCORE_MAX; the values are those of the header of this kernel. *)
Definition OOM_DISABLE : Z := -17.
Definition OOM_ADJUST_MAX : Z := 15.
Definition OOM_SCORE_ADJ_MAX : Z := 1000.

(** [#define LOWMEM_DEATHPENDING_DEPTH 3] *)
Definition LOWMEM_DEATHPENDING_DEPTH : nat := 3.

(** [ARRAY_SIZE(lowmem_adj)], the arrays are declared with six entries. *)
Definition ARRAY_SIZE : nat := 6.

(** Build-time configuration the code depends on. *)
Record kconfig := Kconfig {
  CONFIG_VMWARE_MVP : bool;
  HZ : Z
}.

(* ================================================================== *)
(** ** Module-level state *)

Record lmk_state := LmkState {
  lowmem_adj : list Z;                  (* short [6] *)
  lowmem_adj_size : Z;                  (* int *)
  lowmem_minfree : list Z;              (* int [6] *)
  lowmem_minfree_screen_off : list Z;   (* int [6] *)
  lowmem_minfree_screen_on : list Z;    (* int [6] *)
  lowmem_minfree_size : Z;              (* int *)
  lowmem_deathpending_timeout : Z       (* unsigned long *)
}.

(** The initialisers of the file. *)
Definition default_minfree : list Z :=
  [3 * 512; 2 * 1024; 4 * 1024; 5 * 1024; 8 * 1024; 16 * 1024].

Definition lmk_init : lmk_state :=
  {| lowmem_adj := [0; 1; 6; 12; 16; 17];
     lowmem_adj_size := 6;
     lowmem_minfree := default_minfree;
     lowmem_minfree_screen_off := default_minfree;
     lowmem_minfree_screen_on := default_minfree;
     lowmem_minfree_size := 6;
     lowmem_deathpending_timeout := 0 |}.

(** [a[i]] for an array of integers. *)
Definition aget (a : list Z) (i : nat) : Z := default 0 (a !! i).

(* ================================================================== *)
(** ** Collaborators: memory statistics and the process list *)

(** The counters read through [global_page_state] and [totalreserve_pages]. *)
Record vm_stat := VmStat {
  NR_FREE_PAGES : Z;
  NR_FILE_PAGES : Z;
  NR_SHMEM : Z;
  NR_ACTIVE_ANON : Z;
  NR_ACTIVE_FILE : Z;
  NR_INACTIVE_ANON : Z;
  NR_INACTIVE_FILE : Z;
  totalreserve_pages : Z
}.

Record mm_struct := MmStruct {
  get_mm_rss : Z          (* as the [int tasksize] the driver stores it in *)
}.

Record task_struct := Task {
  pid : Z;
  PF_KTHREAD : bool;       (* tsk->flags & PF_KTHREAD *)
  TIF_MEMDIE : bool;       (* test_tsk_thread_flag(p, TIF_MEMDIE) *)
  oom_score_adj : Z;       (* p->signal->oom_score_adj, short *)
  mm : option mm_struct    (* p->mm, None for NULL *)
}.

(** Modelled from the spec: [find_lock_task_mm] (mm/oom_kill.c) is not among
    the sources. The spec has processes with inaccessible or torn-down memory
    state skipped silently: the task is returned when it has a memory
    descriptor, and nothing is returned otherwise. *)
Definition find_lock_task_mm (tsk : task_struct) : option (task_struct * mm_struct) :=
  match mm tsk with
  | Some m => Some (tsk, m)
  | None => None
  end.

(* ================================================================== *)
(** ** Threshold evaluation, with the array reads it performs *)

Inductive access :=
| RdMinfree (i : nat)
| RdAdj (i : nat).

Definition access_index (a : access) : nat :=
  match a with RdMinfree i => i | RdAdj i => i end.

(** A computation that records the array cells it reads. *)
Definition traced (A : Type) : Type := (A * list access)%type.

Definition tret {A} (x : A) : traced A := (x, []).
Definition tbind {A B} (m : traced A) (k : A -> traced B) : traced B :=
  let '(x, t1) := m in let '(y, t2) := k x in (y, t1 ++ t2).

Notation "x <- m ;; k" := (tbind m (fun x => k))
  (at level 100, m at next level, right associativity).

Definition read_minfree (s : lmk_state) (i : nat) : traced Z :=
  (aget (lowmem_minfree s) i, [RdMinfree i]).
Definition read_adj (s : lmk_state) (i : nat) : traced Z :=
  (aget (lowmem_adj s) i, [RdAdj i]).

Definition other_free (vm : vm_stat) : Z :=
  to_int (NR_FREE_PAGES vm - totalreserve_pages vm).
Definition other_file (vm : vm_stat) : Z :=
  to_int (NR_FILE_PAGES vm - NR_SHMEM vm).

(** [array_size] after the two clamps. *)
Definition array_size (s : lmk_state) : Z :=
  let a := Z.of_nat ARRAY_SIZE in
  let a := if lowmem_adj_size s <? a then lowmem_adj_size s else a in
  if lowmem_minfree_size s <? a then lowmem_minfree_size s else a.

(** The condition of the [if] inside the loop, for both builds. *)
Definition tier_test (cfg : kconfig) (s : lmk_state) (ofree ofile : Z) (i : nat)
  : traced bool :=
  if CONFIG_VMWARE_MVP cfg then
    m <- read_minfree s i ;; tret (ofile <? m)
  else
    m <- read_minfree s i ;;
    if ofree <? m then m' <- read_minfree s i ;; tret (ofile <? m')
    else tret false.

Record tier := Tier {
  tier_index : nat;
  tier_min_score_adj : Z;
  tier_target_free : Z
}.

(** [for (i = 0; i < array_size; i++) { if (...) { ...; break; } }].
    [fuel] bounds the iterations; [ARRAY_SIZE] is always enough. *)
Fixpoint tier_loop (cfg : kconfig) (s : lmk_state) (ofree ofile : Z)
    (fuel : nat) (i : nat) : traced (option tier) :=
  match fuel with
  | O => tret None
  | S fuel' =>
      if Z.of_nat i <? array_size s then
        b <- tier_test cfg s ofree ofile i ;;
        if b : bool then
          a <- read_adj s i ;;
          m <- read_minfree s i ;;
          tret (Some {| tier_index := i;
                        tier_min_score_adj := a;
                        tier_target_free := to_int (m - (ofree + ofile)) |})
        else tier_loop cfg s ofree ofile fuel' (S i)
      else tret None
  end.

Definition evaluate (cfg : kconfig) (s : lmk_state) (vm : vm_stat)
  : traced (option tier) :=
  tier_loop cfg s (other_free vm) (other_file vm) ARRAY_SIZE 0.

Definition active_tier cfg s vm : option tier := fst (evaluate cfg s vm).
Definition evaluate_trace cfg s vm : list access := snd (evaluate cfg s vm).

(** [min_score_adj] after the loop; it starts at [OOM_SCORE_ADJ_MAX + 1]. *)
Definition min_score_adj_of (t : option tier) : Z :=
  match t with
  | Some t => tier_min_score_adj t
  | None => OOM_SCORE_ADJ_MAX + 1
  end.

(* ================================================================== *)
(** ** Victim selection (ENHANCED_LMK_ROUTINE) *)

Record selection := Selection {
  selected : list (option task_struct);
  selected_tasksize : list Z;
  selected_oom_score_adj : list Z;
  all_selected_oom : nat;
  max_selected_oom_idx : nat
}.

(** [selected[i]], a null pointer outside the array as well. *)
Definition slot (sel : list (option task_struct)) (i : nat) : option task_struct :=
  default None (sel !! i).

Definition is_null (o : option task_struct) : bool :=
  match o with Some _ => false | None => true end.

(** The local arrays after the loop that stores [min_score_adj] in every
    [selected_oom_score_adj[i]]. *)
Definition selection_init (min_score_adj : Z) : selection :=
  {| selected := replicate LOWMEM_DEATHPENDING_DEPTH None;
     selected_tasksize := replicate LOWMEM_DEATHPENDING_DEPTH 0;
     selected_oom_score_adj := replicate LOWMEM_DEATHPENDING_DEPTH min_score_adj;
     all_selected_oom := 0;
     max_selected_oom_idx := 0 |}.

(** First [i] with [!selected[i]]. *)
Definition first_free_slot (sel : list (option task_struct)) : option nat :=
  List.find (fun i => is_null (slot sel i)) (seq 0 LOWMEM_DEATHPENDING_DEPTH).

(** One iteration of the loop that looks for the weakest entry. *)
Definition weakest_step (scores sizes : list Z) (idx i : nat) : nat :=
  if aget scores i <? aget scores idx then i
  else if (aget scores i =? aget scores idx) && (aget sizes i <? aget sizes idx)
       then i
       else idx.

Definition recompute_weakest (scores sizes : list Z) (idx : nat) : nat :=
  fold_left (weakest_step scores sizes) (seq 0 LOWMEM_DEATHPENDING_DEPTH) idx.

(** The body of the loop once a task passed the filters. *)
Definition select_task (st : selection) (p : task_struct) (adj tasksize : Z)
  : selection :=
  let idx0 := max_selected_oom_idx st in
  let '(is_exist_oom_task, idx) :=
    if (all_selected_oom st <? LOWMEM_DEATHPENDING_DEPTH)%nat then
      match first_free_slot (selected st) with
      | Some i => (true, i)
      | None => (false, idx0)
      end
    else if (aget (selected_oom_score_adj st) idx0 <? adj)
            || ((aget (selected_oom_score_adj st) idx0 =? adj)
                && (aget (selected_tasksize st) idx0 <? tasksize))
    then (true, idx0)
    else (false, idx0) in
  if is_exist_oom_task : bool then
    let sel := <[idx := Some p]> (selected st) in
    let sizes := <[idx := tasksize]> (selected_tasksize st) in
    let scores := <[idx := adj]> (selected_oom_score_adj st) in
    let n := if (all_selected_oom st <? LOWMEM_DEATHPENDING_DEPTH)%nat
             then S (all_selected_oom st) else all_selected_oom st in
    let idx' := if (n =? LOWMEM_DEATHPENDING_DEPTH)%nat
                then recompute_weakest scores sizes idx else idx in
    {| selected := sel;
       selected_tasksize := sizes;
       selected_oom_score_adj := scores;
       all_selected_oom := n;
       max_selected_oom_idx := idx' |}
  else
    {| selected := selected st;
       selected_tasksize := selected_tasksize st;
       selected_oom_score_adj := selected_oom_score_adj st;
       all_selected_oom := all_selected_oom st;
       max_selected_oom_idx := idx |}.

(** The body of [for_each_process]; [None] is the [return 0] of the
    TIF_MEMDIE check. *)
Definition scan_task (jiffies timeout min_score_adj : Z) (st : selection)
    (tsk : task_struct) : option selection :=
  if PF_KTHREAD tsk then Some st
  else
    match find_lock_task_mm tsk with
    | None => Some st
    | Some (p, m) =>
        if TIF_MEMDIE p && time_before_eq jiffies timeout then None
        else
          let adj := oom_score_adj p in
          if adj <? min_score_adj then Some st
          else
            let tasksize := get_mm_rss m in
            if tasksize <=? 0 then Some st
            else Some (select_task st p adj tasksize)
    end.

Fixpoint scan (jiffies timeout min_score_adj : Z) (tasks : list task_struct)
    (st : selection) : option selection :=
  match tasks with
  | [] => Some st
  | tsk :: rest =>
      match scan_task jiffies timeout min_score_adj st tsk with
      | None => None
      | Some st' => scan jiffies timeout min_score_adj rest st'
      end
  end.

(* ================================================================== *)
(** ** The kill loop and the shrinker entry point *)

Record shrink_result := ShrinkResult {
  ret : Z;                          (* the value returned *)
  killed : list task_struct;        (* SIGKILL sent, TIF_MEMDIE set, in order *)
  deathpending_timeout : Z          (* lowmem_deathpending_timeout afterwards *)
}.

Definition kill_step (cfg : kconfig) (jiffies : Z) (st : selection)
    (acc : shrink_result) (i : nat) : shrink_result :=
  match slot (selected st) i with
  | Some p =>
      {| ret := to_int (ret acc - aget (selected_tasksize st) i);
         killed := killed acc ++ [p];
         deathpending_timeout := to_ulong (jiffies + HZ cfg) |}
  | None => acc
  end.

Definition kill_selected (cfg : kconfig) (jiffies : Z) (st : selection)
    (rem timeout : Z) : shrink_result :=
  fold_left (kill_step cfg jiffies st) (seq 0 LOWMEM_DEATHPENDING_DEPTH)
    {| ret := rem; killed := []; deathpending_timeout := timeout |}.

Definition reclaimable (vm : vm_stat) : Z :=
  NR_ACTIVE_ANON vm + NR_ACTIVE_FILE vm + NR_INACTIVE_ANON vm + NR_INACTIVE_FILE vm.

Definition lowmem_shrink (cfg : kconfig) (s : lmk_state) (vm : vm_stat)
    (jiffies : Z) (nr_to_scan : Z) (tasks : list task_struct) : shrink_result :=
  let min_score_adj := min_score_adj_of (active_tier cfg s vm) in
  let rem := to_int (reclaimable vm) in
  let timeout := lowmem_deathpending_timeout s in
  if (nr_to_scan <=? 0) || (min_score_adj =? OOM_SCORE_ADJ_MAX + 1) then
    {| ret := rem; killed := []; deathpending_timeout := timeout |}
  else
    match scan jiffies timeout min_score_adj tasks (selection_init min_score_adj) with
    | None => {| ret := 0; killed := []; deathpending_timeout := timeout |}
    | Some st => kill_selected cfg jiffies st rem timeout
    end.

(** [set_tsk_thread_flag(p, TIF_MEMDIE)] as the next scan sees the task. *)
Definition set_memdie (p : task_struct) : task_struct :=
  {| pid := pid p;
     PF_KTHREAD := PF_KTHREAD p;
     TIF_MEMDIE := true;
     oom_score_adj := oom_score_adj p;
     mm := mm p |}.

(** The module-level state a call of the shrinker leaves behind. *)
Definition after_shrink (s : lmk_state) (r : shrink_result) : lmk_state :=
  {| lowmem_adj := lowmem_adj s;
     lowmem_adj_size := lowmem_adj_size s;
     lowmem_minfree := lowmem_minfree s;
     lowmem_minfree_screen_off := lowmem_minfree_screen_off s;
     lowmem_minfree_screen_on := lowmem_minfree_screen_on s;
     lowmem_minfree_size := lowmem_minfree_size s;
     lowmem_deathpending_timeout := deathpending_timeout r |}.

(* ================================================================== *)
(** ** Screen state: early suspend and late resume *)

(** Both [memcpy] calls copy a whole six-entry array onto another one. *)
Definition low_mem_early_suspend (s : lmk_state) : lmk_state :=
  {| lowmem_adj := lowmem_adj s;
     lowmem_adj_size := lowmem_adj_size s;
     lowmem_minfree := lowmem_minfree_screen_off s;
     lowmem_minfree_screen_off := lowmem_minfree_screen_off s;
     lowmem_minfree_screen_on := lowmem_minfree s;
     lowmem_minfree_size := lowmem_minfree_size s;
     lowmem_deathpending_timeout := lowmem_deathpending_timeout s |}.

Definition low_mem_late_resume (s : lmk_state) : lmk_state :=
  {| lowmem_adj := lowmem_adj s;
     lowmem_adj_size := lowmem_adj_size s;
     lowmem_minfree := lowmem_minfree_screen_on s;
     lowmem_minfree_screen_off := lowmem_minfree_screen_off s;
     lowmem_minfree_screen_on := lowmem_minfree_screen_on s;
     lowmem_minfree_size := lowmem_minfree_size s;
     lowmem_deathpending_timeout := lowmem_deathpending_timeout s |}.

(* ================================================================== *)
(** ** Auto-detection of oom_adj values *)

(** The result is an [int]; [/] of C truncates towards zero. *)
Definition lowmem_oom_adj_to_oom_score_adj (oom_adj : Z) : Z :=
  if oom_adj =? OOM_ADJUST_MAX then OOM_SCORE_ADJ_MAX
  else to_int (Z.quot (to_int (oom_adj * OOM_SCORE_ADJ_MAX)) (- OOM_DISABLE)).

(** [array_size] of the auto-detection: only [lowmem_adj_size] clamps it. *)
Definition adj_array_size (s : lmk_state) : Z :=
  let a := Z.of_nat ARRAY_SIZE in
  if lowmem_adj_size s <? a then lowmem_adj_size s else a.

(** One iteration of the conversion loop. *)
Definition convert_step (adj : list Z) (i : nat) : list Z :=
  let oom_adj := aget adj i in
  let oom_score_adj := to_short (lowmem_oom_adj_to_oom_score_adj oom_adj) in
  <[i := oom_score_adj]> adj.

Definition with_lowmem_adj (s : lmk_state) (adj : list Z) : lmk_state :=
  {| lowmem_adj := adj;
     lowmem_adj_size := lowmem_adj_size s;
     lowmem_minfree := lowmem_minfree s;
     lowmem_minfree_screen_off := lowmem_minfree_screen_off s;
     lowmem_minfree_screen_on := lowmem_minfree_screen_on s;
     lowmem_minfree_size := lowmem_minfree_size s;
     lowmem_deathpending_timeout := lowmem_deathpending_timeout s |}.

Definition lowmem_autodetect_oom_adj_values (s : lmk_state) : lmk_state :=
  let n := adj_array_size s in
  if n <=? 0 then s
  else
    let oom_adj := aget (lowmem_adj s) (Z.to_nat (n - 1)) in
    if oom_adj >? OOM_ADJUST_MAX then s
    else
      let oom_score_adj := to_short (lowmem_oom_adj_to_oom_score_adj oom_adj) in
      if oom_score_adj <=? OOM_ADJUST_MAX then s
      else
        with_lowmem_adj s
          (fold_left convert_step (seq 0 (Z.to_nat n)) (lowmem_adj s)).

(* ================================================================== *)
(** ** Vocabulary of the properties *)

(** The tier test of the code as a proposition, for both builds. *)
Definition breached (cfg : kconfig) (s : lmk_state) (vm : vm_stat) (i : nat) : Prop :=
  if CONFIG_VMWARE_MVP cfg
  then other_file vm < aget (lowmem_minfree s) i
  else other_free vm < aget (lowmem_minfree s) i
       /\ other_file vm < aget (lowmem_minfree s) i.

(** Resident pages of a process; a process without memory descriptor has
    none. *)
Definition resident_pages (t : task_struct) : Z :=
  match mm t with
  | Some m => get_mm_rss m
  | None => 0
  end.

(** A process passes the filters of the scan for the cutoff [c]. *)
Definition eligible (c : Z) (t : task_struct) : Prop :=
  PF_KTHREAD t = false /\ c <= oom_score_adj t /\ 0 < resident_pages t.

Definition eligibleb (c : Z) (t : task_struct) : bool :=
  negb (PF_KTHREAD t) && (c <=? oom_score_adj t) && (0 <? resident_pages t).

(** [a] beats [b]: higher score, ties broken by the larger size. *)
Definition dominates (a b : task_struct) : Prop :=
  oom_score_adj b < oom_score_adj a \/
  (oom_score_adj b = oom_score_adj a /\ resident_pages b < resident_pages a).

(** The TIF_MEMDIE check of the scan is reached by [t] and holds there. *)
Definition has_mm (t : task_struct) : bool :=
  match mm t with Some _ => true | None => false end.

Definition death_pending (jiffies timeout : Z) (t : task_struct) : bool :=
  negb (PF_KTHREAD t) && has_mm t && TIF_MEMDIE t
  && time_before_eq jiffies timeout.

(** Order of the selection: score first, then size. *)
Definition lexle (a b : Z * Z) : Prop :=
  fst a < fst b \/ (fst a = fst b /\ snd a <= snd b).

Definition task_key (t : task_struct) : Z * Z :=
  (oom_score_adj t, resident_pages t).

(** The (score, size) pair the arrays hold at index [i]. *)
Definition key_at (scores sizes : list Z) (i : nat) : Z * Z :=
  (aget scores i, aget sizes i).

Definition slot_key (st : selection) (i : nat) : Z * Z :=
  key_at (selected_oom_score_adj st) (selected_tasksize st) i.

(** Number of processes passing the filters. *)
Definition eligible_count (c : Z) (tasks : list task_struct) : nat :=
  length (List.filter (eligibleb c) tasks).

(** What holds of the local arrays of the scan after the processes [seen]
    went through it with the cutoff [c]. *)
Record sel_inv (c : Z) (seen : list task_struct) (st : selection) : Prop := SelInv {
  inv_len_sel : length (selected st) = LOWMEM_DEATHPENDING_DEPTH;
  inv_len_sizes : length (selected_tasksize st) = LOWMEM_DEATHPENDING_DEPTH;
  inv_len_scores : length (selected_oom_score_adj st) = LOWMEM_DEATHPENDING_DEPTH;
  inv_prefix : forall i, (i < LOWMEM_DEATHPENDING_DEPTH)%nat ->
      (slot (selected st) i <> None <-> (i < all_selected_oom st)%nat);
  inv_slot : forall i p, slot (selected st) i = Some p ->
      In p seen /\ eligible c p /\ slot_key st i = task_key p;
  inv_count : all_selected_oom st
      = Nat.min LOWMEM_DEATHPENDING_DEPTH (eligible_count c seen);
  inv_partial : (all_selected_oom st < LOWMEM_DEATHPENDING_DEPTH)%nat ->
      forall x, In x seen -> eligible c x ->
                exists i, slot (selected st) i = Some x;
  inv_full : all_selected_oom st = LOWMEM_DEATHPENDING_DEPTH ->
      (max_selected_oom_idx st < LOWMEM_DEATHPENDING_DEPTH)%nat
      /\ (forall i, (i < LOWMEM_DEATHPENDING_DEPTH)%nat ->
                    lexle (slot_key st (max_selected_oom_idx st)) (slot_key st i))
      /\ (forall x, In x seen -> eligible c x ->
             (exists i, slot (selected st) i = Some x)
             \/ lexle (task_key x) (slot_key st (max_selected_oom_idx st)))
}.

(* ================================================================== *)
(** ** The evaluator and the rescale condition as the specification words them *)

(** The specification's tier test: [F < minFreePages[i]], and in the
    alternate mode additionally [C < minFreePages[i]]. *)
Definition spec_tier_test (alternate : bool) (F C m : Z) : bool :=
  (F <? m) && (if alternate then C <? m else true).

(** The smallest index below the effective length passing that test. *)
Definition spec_active_index (alternate : bool) (s : lmk_state) (vm : vm_stat)
  : option nat :=
  List.find (fun i => spec_tier_test alternate (other_free vm) (other_file vm)
                   (aget (lowmem_minfree s) i))
       (seq 0 (Z.to_nat (array_size s))).

(** The specification's condition of the rescale: the last entry sits at the
    maximum of the legacy unit. *)
Definition spec_rescale_applies (s : lmk_state) : Prop :=
  aget (lowmem_adj s) (Z.to_nat (adj_array_size s - 1)) = OOM_ADJUST_MAX.

(* ================================================================== *)
(** ** Sample inputs *)

Definition build_default : kconfig := {| CONFIG_VMWARE_MVP := false; HZ := 200 |}.
Definition build_mvp : kconfig := {| CONFIG_VMWARE_MVP := true; HZ := 200 |}.

(** A user process with a memory descriptor. *)
Definition user_task (p score size : Z) : task_struct :=
  {| pid := p; PF_KTHREAD := false; TIF_MEMDIE := false;
     oom_score_adj := score; mm := Some {| get_mm_rss := size |} |}.

(** The five candidates of the selection scenario, in scan order. *)
Definition scenario_tasks : list task_struct :=
  [user_task 1 5 10; user_task 2 5 50; user_task 3 8 10;
   user_task 4 8 20; user_task 5 9 5].

(** Memory statistics with [free] free pages and [file] file pages. *)
Definition vm_sample (free file : Z) : vm_stat :=
  {| NR_FREE_PAGES := free; NR_FILE_PAGES := file; NR_SHMEM := 0;
     NR_ACTIVE_ANON := 1000; NR_ACTIVE_FILE := 2000;
     NR_INACTIVE_ANON := 3000; NR_INACTIVE_FILE := 4000;
     totalreserve_pages := 0 |}.

(** A victim of an earlier pass that already dropped its memory descriptor,
    and a kernel thread carrying the flag. *)
Definition exited_victim : task_struct :=
  {| pid := 40; PF_KTHREAD := false; TIF_MEMDIE := true;
     oom_score_adj := 900; mm := None |}.
Definition flagged_kthread : task_struct :=
  {| pid := 41; PF_KTHREAD := true; TIF_MEMDIE := true;
     oom_score_adj := 0; mm := Some {| get_mm_rss := 7 |} |}.
Definition dying_victim : task_struct :=
  {| pid := 42; PF_KTHREAD := false; TIF_MEMDIE := true;
     oom_score_adj := 900; mm := Some {| get_mm_rss := 300 |} |}.

(** The default tables with only four cutoff scores configured. *)
Definition four_scores : lmk_state :=
  {| lowmem_adj := [0; 1; 6; 12; 16; 17];
     lowmem_adj_size := 4;
     lowmem_minfree := default_minfree;
     lowmem_minfree_screen_off := default_minfree;
     lowmem_minfree_screen_on := default_minfree;
     lowmem_minfree_size := 6;
     lowmem_deathpending_timeout := 0 |}.

(** Tables whose screen-off thresholds differ from the active ones. *)
Definition screen_off_halved : lmk_state :=
  {| lowmem_adj := [0; 1; 6; 12; 16; 17];
     lowmem_adj_size := 6;
     lowmem_minfree := default_minfree;
     lowmem_minfree_screen_off := [768; 1024; 2048; 2560; 4096; 8192];
     lowmem_minfree_screen_on := default_minfree;
     lowmem_minfree_size := 6;
     lowmem_deathpending_timeout := 0 |}.

(** The example of the header comment of the driver: "0,8" written to adj
    and "1024,4096" written to minfree. *)
Definition two_tiers : lmk_state :=
  {| lowmem_adj := [0; 8; 6; 12; 16; 17];
     lowmem_adj_size := 2;
     lowmem_minfree := [1024; 4096; 4 * 1024; 5 * 1024; 8 * 1024; 16 * 1024];
     lowmem_minfree_screen_off := default_minfree;
     lowmem_minfree_screen_on := default_minfree;
     lowmem_minfree_size := 2;
     lowmem_deathpending_timeout := 0 |}.

(** The default tables while a kill of an earlier pass is still pending. *)
Definition lmk_pending : lmk_state :=
  {| lowmem_adj := [0; 1; 6; 12; 16; 17];
     lowmem_adj_size := 6;
     lowmem_minfree := default_minfree;
     lowmem_minfree_screen_off := default_minfree;
     lowmem_minfree_screen_on := default_minfree;
     lowmem_minfree_size := 6;
     lowmem_deathpending_timeout := 600 |}.

(** The arrays the scan of [scenario_tasks] ends with. *)
Definition scenario_pool : selection :=
  {| selected := [Some (user_task 4 8 20); Some (user_task 5 9 5);
                  Some (user_task 3 8 10)];
     selected_tasksize := [20; 5; 10];
     selected_oom_score_adj := [8; 9; 8];
     all_selected_oom := 3;
     max_selected_oom_idx := 2 |}.

(* ================================================================== *)
(** ** Screen state: a whole cycle *)

(** The screen goes off and on again. *)
Definition screen_cycle (s : lmk_state) : lmk_state :=
  low_mem_late_resume (low_mem_early_suspend s).

(* ================================================================== *)
(** ** CONFIG_ZRAM_FOR_ANDROID: the swap requests *)

(** [#define CHECK_FREE_MEMORY 2048], [#define CHECK_FREE_SWAPSPACE 10240] *)
Definition CHECK_FREE_MEMORY : Z := 2048.

Definition to_uint (z : Z) : Z := z mod 2 ^ 32.

(** The loop of [lowmem_init] over the zones, given the high watermark of
    each zone: [if (high_wmark < zone->watermark[WMARK_HIGH]) high_wmark = ...]. *)
Definition high_wmark_step (high_wmark w : Z) : Z :=
  if high_wmark <? w then to_uint w else high_wmark.

(** [check_free_memory] as [lowmem_init] leaves it. *)
Definition lowmem_init_check_free_memory (zones : list Z) : Z :=
  let high_wmark := fold_left high_wmark_step zones 0 in
  if negb (high_wmark =? 0) then high_wmark else CHECK_FREE_MEMORY.

Record signal_struct := SignalStruct {
  oom_adj : Z              (* sig->oom_adj, the legacy unit *)
}.

(** A process as the swap paths look at it: the task, [p->signal] and
    [__task_cred(p)->uid]. *)
Record swap_proc := SwapProc {
  sp_task : task_struct;
  sp_signal : option signal_struct;
  sp_uid : Z
}.








(** [int hidden_min_oom_adj = 9] *)
Definition hidden_min_oom_adj : Z := 9.

(** The [for_each_process] loop of [swap_inactive_pagelist]. *)
Fixpoint swap_inactive_loop (procs : list swap_proc) : option swap_proc :=
  match procs with
  | [] => None
  | tsk :: rest =>
      match find_lock_task_mm (sp_task tsk) with
      | None => swap_inactive_loop rest
      | Some (p, m) =>
          match sp_signal tsk with
          | None => swap_inactive_loop rest
          | Some sig =>
              let tasksize := get_mm_rss m in
              if tasksize <=? 0 then swap_inactive_loop rest
              else if oom_adj sig >=? hidden_min_oom_adj then Some tsk
                   else swap_inactive_loop rest
          end
      end
  end.

(** [swap_inactive_pagelist]: the value returned ([pages_counter], which
    nothing assigns after its initialisation) and the process whose pages go
    to [shrink_pages]. *)
Definition swap_inactive_pagelist (procs : list swap_proc)
  : Z * option swap_proc :=
  let pages_counter := 0 in
  (pages_counter, swap_inactive_loop procs).


Definition inactive_candidate (q : swap_proc) : bool :=
  match sp_signal q with
  | Some sig =>
      (0 <? resident_pages (sp_task q)) && (hidden_min_oom_adj <=? oom_adj sig)
  | None => false
  end.

(** [q] is the first element of [l] passing [P]. *)
Definition first_passing {A} (P : A -> bool) (l : list A) (q : A) : Prop :=
  exists l1 l2, l = l1 ++ q :: l2 /\ P q = true
                /\ forall x, In x l1 -> P x = false.

(** Sample processes for the swap paths. *)
Definition swap_app (p uid adj size : Z) : swap_proc :=
  {| sp_task := user_task p 0 size;
     sp_signal := Some {| oom_adj := adj |};
     sp_uid := uid |}.

Definition swap_procs : list swap_proc :=
  [swap_app 100 1000 (-12) 4000; swap_app 200 10050 2 900;
   swap_app 300 10051 10 700; swap_app 400 10052 12 0].

(* ================================================================== *)
(** ** CONFIG_ZRAM_FOR_ANDROID: collecting the pages of a process *)

Record vm_area_struct := Vma {
  vm_start : Z;
  vm_end : Z
}.

(** A page as [shrink_pages] looks at it: the flag tests, [page_zone_id] and
    [page_zone]. *)
Record page := Page {
  page_frame : Z;
  PageUnevictable : bool;
  PageDirty : bool;
  PageAnon : bool;
  page_is_file_cache : Z;
  page_zone_id : Z;
  page_zone : Z
}.

Section ShrinkPages.

(** The memory manager is not among the sources: the state of its LRU lists,
    [isolate_lru_page] acting on it (0 on success), [follow_page] ([None]
    for a null or an error pointer) and [PAGE_SIZE] are taken as given. *)
Variable lru : Type.
Variable isolate_lru_page : page -> lru -> Z * lru.
Variable follow_page : vm_area_struct -> Z -> option page.
Variable PAGE_SIZE : Z.

Record shrink_state := ShrinkState {
  isolate_pages_counter : Z;          (* unsigned int *)
  zone_id_0 : option Z;               (* *zone_id_0, None for NULL *)
  zone0_page_list : list page;
  zone_id_1 : option Z;
  zone1_page_list : list page;
  lru_lists : lru
}.

(** "only moveable, anonymous and not dirty pages can be swapped" *)
Definition swappable (pg : page) : bool :=
  negb (PageUnevictable pg) && negb (PageDirty pg) && PageAnon pg
  && (0 =? page_is_file_cache pg).

(** The body of the [for] loop up to the test of the counter. *)
Definition visit_address (vma : vm_area_struct) (addr : Z) (st : shrink_state)
  : shrink_state :=
  match follow_page vma addr with
  | None => st
  | Some pg =>
      if swappable pg then
        if page_zone_id pg =? 0 then
          let '(rc, l) := isolate_lru_page pg (lru_lists st) in
          if rc =? 0 then
            {| isolate_pages_counter := to_uint (isolate_pages_counter st + 1);
               zone_id_0 := Some (page_zone pg);
               zone0_page_list := zone0_page_list st ++ [pg];
               zone_id_1 := zone_id_1 st;
               zone1_page_list := zone1_page_list st;
               lru_lists := l |}
          else
            {| isolate_pages_counter := isolate_pages_counter st;
               zone_id_0 := zone_id_0 st;
               zone0_page_list := zone0_page_list st;
               zone_id_1 := zone_id_1 st;
               zone1_page_list := zone1_page_list st;
               lru_lists := l |}
        else if page_zone_id pg =? 1 then
          let '(rc, l) := isolate_lru_page pg (lru_lists st) in
          if rc =? 0 then
            {| isolate_pages_counter := to_uint (isolate_pages_counter st + 1);
               zone_id_0 := zone_id_0 st;
               zone0_page_list := zone0_page_list st;
               zone_id_1 := Some (page_zone pg);
               zone1_page_list := zone1_page_list st ++ [pg];
               lru_lists := l |}
          else
            {| isolate_pages_counter := isolate_pages_counter st;
               zone_id_0 := zone_id_0 st;
               zone0_page_list := zone0_page_list st;
               zone_id_1 := zone_id_1 st;
               zone1_page_list := zone1_page_list st;
               lru_lists := l |}
        else st
      else st
  end.

(** The number of turns of [for (addr = vm_start; addr < vm_end; addr +=
    PAGE_SIZE)]; an area ends below the top of the address space, so [addr]
    does not wrap around. *)
Definition vma_pages (vma : vm_area_struct) : nat :=
  if vm_start vma <? vm_end vma
  then Z.to_nat ((vm_end vma - vm_start vma + PAGE_SIZE - 1) / PAGE_SIZE)
  else 0%nat.

(** The [for] loop over one area, [n] addresses from [addr] on; [true] is
    the [return] inside the loop. *)
Fixpoint vma_loop (num_to_scan : Z) (vma : vm_area_struct) (n : nat)
    (addr : Z) (st : shrink_state) : bool * shrink_state :=
  match n with
  | O => (false, st)
  | S n' =>
      let st' := visit_address vma addr st in
      if isolate_pages_counter st' >=? num_to_scan then (true, st')
      else vma_loop num_to_scan vma n' (addr + PAGE_SIZE) st'
  end.

(** The [while] loop over the areas of the memory descriptor. *)
Fixpoint mmap_loop (num_to_scan : Z) (mmap : list vm_area_struct)
    (st : shrink_state) : shrink_state :=
  match mmap with
  | [] => st
  | vma :: rest =>
      match vma_loop num_to_scan vma (vma_pages vma) (vm_start vma) st with
      | (true, st') => st'
      | (false, st') => mmap_loop num_to_scan rest st'
      end
  end.

(** [shrink_pages]: the state it leaves; the value returned is its
    [isolate_pages_counter]. The counter starts at zero, the zone pointers
    and the lists are the caller's. *)
Definition shrink_pages (mmap : list vm_area_struct)
    (z0 : option Z) (l0 : list page) (z1 : option Z) (l1 : list page)
    (lists : lru) (num_to_scan : Z) : shrink_state :=
  mmap_loop num_to_scan mmap
    {| isolate_pages_counter := 0;
       zone_id_0 := z0; zone0_page_list := l0;
       zone_id_1 := z1; zone1_page_list := l1;
       lru_lists := lists |}.

(** What holds between the state [shrink_pages] starts from and a later
    one: the lists grew at their tails by swappable pages of the right zone,
    the counter counts them, and a list that grew has its zone set. *)
Definition collected (st0 st : shrink_state) : Prop :=
  exists a0 a1 : list page,
    zone0_page_list st = zone0_page_list st0 ++ a0
    /\ zone1_page_list st = zone1_page_list st0 ++ a1
    /\ isolate_pages_counter st
       = isolate_pages_counter st0 + Z.of_nat (length a0 + length a1)
    /\ Forall (fun pg => swappable pg = true /\ page_zone_id pg = 0) a0
    /\ Forall (fun pg => swappable pg = true /\ page_zone_id pg = 1) a1
    /\ (a0 = [] -> zone_id_0 st = zone_id_0 st0)
    /\ (a0 <> [] -> zone_id_0 st <> None)
    /\ (a1 = [] -> zone_id_1 st = zone_id_1 st0)
    /\ (a1 <> [] -> zone_id_1 st <> None).

(** At the head of the loops the counter has not reached [num_to_scan],
    unless nothing was counted yet. *)
Definition below_target (num_to_scan : Z) (st : shrink_state) : Prop :=
  isolate_pages_counter st = 0 \/ isolate_pages_counter st < num_to_scan.

End ShrinkPages.

(** A memory manager to try [shrink_pages] on: the LRU state is the list of
    the frames isolated so far, a frame is isolated once only ([-EBUSY]
    afterwards), and four addresses are mapped. *)
Definition sample_isolate (pg : page) (isolated : list Z) : Z * list Z :=
  if existsb (Z.eqb (page_frame pg)) isolated then (-16, isolated)
  else (0, page_frame pg :: isolated).

Definition sample_page (frame : Z) (dirty : bool) (zone : Z) : page :=
  {| page_frame := frame; PageUnevictable := false; PageDirty := dirty;
     PageAnon := true; page_is_file_cache := 0;
     page_zone_id := zone; page_zone := 100 + zone |}.

Definition sample_follow (vma : vm_area_struct) (addr : Z) : option page :=
  if addr =? 4096 then Some (sample_page 1 false 0)
  else if addr =? 8192 then Some (sample_page 2 true 0)
  else if addr =? 12288 then Some (sample_page 3 false 1)
  else if addr =? 16384 then Some (sample_page 1 false 0)
  else None.

Definition sample_mmap : list vm_area_struct :=
  [{| vm_start := 4096; vm_end := 24576 |}].


(* ================================================================== *)
(** ** Further vocabulary *)

(** Resident pages of a list of processes, summed. *)
Definition sum_resident (l : list task_struct) : Z :=
  fold_right (fun p acc => resident_pages p + acc) 0 l.

(** No process sits in two slots. *)
Definition slots_distinct (sel : list (option task_struct)) : Prop :=
  forall i j p, slot sel i = Some p -> slot sel j = Some p -> i = j.

(** The sizes stored beside the selected processes are their resident pages. *)
Definition sizes_match (st : selection) : Prop :=
  forall i p, slot (selected st) i = Some p ->
              aget (selected_tasksize st) i = resident_pages p.

(** The processes in the slots, in slot order: the ones the kill loop
    signals. *)
Definition slots_list (sel : list (option task_struct)) : list task_struct :=
  flat_map (fun i => option_list (slot sel i)) (seq 0 LOWMEM_DEATHPENDING_DEPTH).

(** The order of the selection read downwards, with its decision procedure. *)
Definition keyge (a b : Z * Z) : Prop := lexle b a.

Definition keyge_dec (a b : Z * Z) : Decision (keyge a b) :=
  match Z_lt_dec (fst b) (fst a) with
  | left H => left (or_introl H)
  | right H1 =>
      match Z.eq_dec (fst b) (fst a), Z_le_dec (snd b) (snd a) with
      | left H2, left H3 => left (or_intror (conj H2 H3))
      | right H2, _ =>
          right (fun H => match H with
                          | or_introl H' => H1 H'
                          | or_intror (conj H' _) => H2 H'
                          end)
      | _, right H3 =>
          right (fun H => match H with
                          | or_introl H' => H1 H'
                          | or_intror (conj _ H') => H3 H'
                          end)
      end
  end.

(** The processes that passed the filters split into the selected ones and
    the rest, none of which beats a selected one; there is no rest while a
    slot is free. *)
Definition pool_split (c : Z) (seen : list task_struct) (st : selection) : Prop :=
  exists rest : list (Z * Z),
    Permutation (map task_key (List.filter (eligibleb c) seen))
                (map task_key (slots_list (selected st)) ++ rest)
    /\ (forall r y, In r rest ->
                    In y (map task_key (slots_list (selected st))) -> lexle r y)
    /\ ((all_selected_oom st < LOWMEM_DEATHPENDING_DEPTH)%nat -> rest = []).

(* ================================================================== *)
(** * Properties *)

(** ** Integer conversions *)

Lemma to_signed_id w z :
  0 < w -> - 2 ^ (w - 1) <= z < 2 ^ (w - 1) -> to_signed w z = z.
Proof.
  intros Hw Hz. unfold to_signed.
  assert (E : 2 ^ w = 2 * 2 ^ (w - 1)).
  { replace w with (Z.succ (w - 1)) at 1 by lia. apply Z.pow_succ_r. lia. }
  rewrite Z.mod_small by lia. lia.
Qed.

Lemma to_int_id z : INT_MIN <= z <= INT_MAX -> to_int z = z.
Proof.
  unfold INT_MIN, INT_MAX, to_int. intros H.
  apply to_signed_id; [lia|]. change (32 - 1) with 31. lia.
Qed.

Lemma to_short_id z : SHRT_MIN <= z <= SHRT_MAX -> to_short z = z.
Proof.
  unfold SHRT_MIN, SHRT_MAX, to_short. intros H.
  apply to_signed_id; [lia|]. change (16 - 1) with 15. lia.
Qed.

(** ** Screen state *)

(** C6: a suspend followed by a resume restores [lowmem_minfree], and
    neither handler touches [lowmem_adj] (nor its length). *)
Theorem suspend_resume_restores_minfree (s : lmk_state) :
  lowmem_minfree (low_mem_late_resume (low_mem_early_suspend s))
    = lowmem_minfree s
  /\ lowmem_adj (low_mem_early_suspend s) = lowmem_adj s
  /\ lowmem_adj (low_mem_late_resume s) = lowmem_adj s
  /\ lowmem_adj (low_mem_late_resume (low_mem_early_suspend s)) = lowmem_adj s
  /\ lowmem_adj_size (low_mem_late_resume (low_mem_early_suspend s))
       = lowmem_adj_size s.
Proof. repeat split. Qed.

(** C7: two suspends in a row store the screen-off thresholds in the backup,
    so the resume that follows activates the screen-off thresholds; the
    original thresholds come back only if they were the screen-off ones, and
    the sample tables with halved screen-off thresholds lose them. *)
Theorem double_suspend_loses_minfree (s : lmk_state) :
  lowmem_minfree_screen_on (low_mem_early_suspend (low_mem_early_suspend s))
    = lowmem_minfree_screen_off s
  /\ lowmem_minfree
       (low_mem_late_resume (low_mem_early_suspend (low_mem_early_suspend s)))
     = lowmem_minfree_screen_off s
  /\ (lowmem_minfree
        (low_mem_late_resume (low_mem_early_suspend (low_mem_early_suspend s)))
      = lowmem_minfree s
      <-> lowmem_minfree_screen_off s = lowmem_minfree s)
  /\ lowmem_minfree
       (low_mem_late_resume
          (low_mem_early_suspend (low_mem_early_suspend screen_off_halved)))
     <> lowmem_minfree screen_off_halved.
Proof.
  repeat split; try (simpl; intros H; exact H).
  simpl. discriminate.
Qed.

(** ** Threshold evaluation *)

Lemma tier_test_value cfg s vm i :
  fst (tier_test cfg s (other_free vm) (other_file vm) i) = true
  <-> breached cfg s vm i.
Proof.
  unfold tier_test, breached, tbind, read_minfree, tret.
  destruct (CONFIG_VMWARE_MVP cfg); simpl.
  - apply Z.ltb_lt.
  - destruct (other_free vm <? aget (lowmem_minfree s) i) eqn:E; simpl.
    + apply Z.ltb_lt in E. rewrite Z.ltb_lt. tauto.
    + apply Z.ltb_ge in E. split; [discriminate | lia].
Qed.

Lemma tier_test_reads cfg s F C i a :
  In a (snd (tier_test cfg s F C i)) -> access_index a = i.
Proof.
  unfold tier_test, tbind, read_minfree, tret.
  destruct (CONFIG_VMWARE_MVP cfg); simpl.
  - intros [<- | []]. reflexivity.
  - destruct (F <? aget (lowmem_minfree s) i); simpl.
    + intros [<- | [<- | []]]; reflexivity.
    + intros [<- | []]. reflexivity.
Qed.

(** Every read of the loop started at [i] is at an index between [i] and
    [array_size]. *)
Lemma tier_loop_reads cfg s F C fuel :
  forall i a, In a (snd (tier_loop cfg s F C fuel i)) ->
    (i <= access_index a)%nat /\ Z.of_nat (access_index a) < array_size s.
Proof.
  induction fuel as [|fuel IH]; intros i a; simpl; [intros []|].
  destruct (Z.of_nat i <? array_size s) eqn:Hi; [|intros []].
  apply Z.ltb_lt in Hi.
  unfold tbind at 1.
  pose proof (tier_test_reads cfg s F C i) as Ht.
  destruct (tier_test cfg s F C i) as [b t1]. simpl in Ht.
  destruct b.
  - simpl. rewrite in_app_iff. simpl.
    intros [H | [<- | [<- | []]]]; simpl; try lia.
    rewrite (Ht _ H). lia.
  - destruct (tier_loop cfg s F C fuel (S i)) as [r t2] eqn:E. simpl.
    rewrite in_app_iff. intros [H | H].
    + rewrite (Ht _ H). lia.
    + specialize (IH (S i) a). rewrite E in IH. simpl in IH.
      destruct (IH H). lia.
Qed.

(** What the loop started at [i] returns, given enough fuel. *)
Lemma tier_loop_value cfg s vm fuel :
  forall i, array_size s <= Z.of_nat (i + fuel) ->
    match fst (tier_loop cfg s (other_free vm) (other_file vm) fuel i) with
    | Some t =>
        (i <= tier_index t)%nat
        /\ Z.of_nat (tier_index t) < array_size s
        /\ breached cfg s vm (tier_index t)
        /\ (forall j, (i <= j < tier_index t)%nat -> ~ breached cfg s vm j)
        /\ tier_min_score_adj t = aget (lowmem_adj s) (tier_index t)
        /\ tier_target_free t =
             to_int (aget (lowmem_minfree s) (tier_index t)
                     - (other_free vm + other_file vm))
    | None =>
        forall j, (i <= j)%nat -> Z.of_nat j < array_size s ->
                  ~ breached cfg s vm j
    end.
Proof.
  induction fuel as [|fuel IH]; intros i Hfuel; simpl.
  - intros j Hj Hlt. lia.
  - destruct (Z.of_nat i <? array_size s) eqn:Hi; simpl.
    2:{ apply Z.ltb_ge in Hi. intros j Hj Hlt. lia. }
    apply Z.ltb_lt in Hi.
    unfold tbind at 1.
    pose proof (tier_test_value cfg s vm i) as Ht.
    destruct (tier_test cfg s (other_free vm) (other_file vm) i) as [b t1].
    simpl in Ht. destruct b.
    + simpl. repeat split; try lia; try reflexivity.
      * apply Ht. reflexivity.
    + specialize (IH (S i)).
      destruct (tier_loop cfg s (other_free vm) (other_file vm) fuel (S i))
        as [r t2] eqn:E. simpl in *.
      assert (Hn : ~ breached cfg s vm i).
      { intros Hb. apply Ht in Hb. discriminate. }
      assert (Hf : array_size s <= Z.of_nat (S (i + fuel))) by lia.
      specialize (IH Hf). destruct r as [t|].
      * destruct IH as (H1 & H2 & H3 & H4 & H5 & H6).
        repeat split; try assumption; try lia.
        intros j Hj. destruct (Nat.eq_dec j i) as [->|Hne]; [assumption|].
        apply H4. lia.
      * intros j Hj Hlt. destruct (Nat.eq_dec j i) as [->|Hne]; [assumption|].
        apply IH; lia.
Qed.

Lemma array_size_min s :
  array_size s
  = Z.min (Z.min (lowmem_adj_size s) (lowmem_minfree_size s)) (Z.of_nat ARRAY_SIZE).
Proof.
  unfold array_size.
  destruct (lowmem_adj_size s <? Z.of_nat ARRAY_SIZE) eqn:E1.
  - apply Z.ltb_lt in E1.
    destruct (lowmem_minfree_size s <? lowmem_adj_size s) eqn:E2.
    + apply Z.ltb_lt in E2. lia.
    + apply Z.ltb_ge in E2. lia.
  - apply Z.ltb_ge in E1.
    destruct (lowmem_minfree_size s <? Z.of_nat ARRAY_SIZE) eqn:E2.
    + apply Z.ltb_lt in E2. lia.
    + apply Z.ltb_ge in E2. lia.
Qed.

Lemma array_size_le s : array_size s <= Z.of_nat ARRAY_SIZE.
Proof. rewrite array_size_min. lia. Qed.

Lemma active_tier_value cfg s vm :
  match active_tier cfg s vm with
  | Some t =>
      Z.of_nat (tier_index t) < array_size s
      /\ breached cfg s vm (tier_index t)
      /\ (forall j, (j < tier_index t)%nat -> ~ breached cfg s vm j)
      /\ tier_min_score_adj t = aget (lowmem_adj s) (tier_index t)
  | None =>
      forall j, Z.of_nat j < array_size s -> ~ breached cfg s vm j
  end.
Proof.
  unfold active_tier, evaluate.
  pose proof (tier_loop_value cfg s vm ARRAY_SIZE 0%nat) as H.
  pose proof (array_size_le s) as Hle.
  destruct (fst (tier_loop cfg s (other_free vm) (other_file vm) ARRAY_SIZE 0)).
  - destruct H as (H1 & H2 & H3 & H4 & H5 & H6); [simpl; lia|].
    repeat split; try assumption. intros j Hj. apply H4. lia.
  - intros j Hj. apply H; [simpl; lia | lia | assumption].
Qed.

(** Without an active tier, or without a scan budget, the shrinker returns
    the count of reclaimable pages and looks at no process. *)
Lemma lowmem_shrink_count_only cfg s vm jiffies nr_to_scan tasks :
  nr_to_scan <= 0 \/ active_tier cfg s vm = None ->
  lowmem_shrink cfg s vm jiffies nr_to_scan tasks
  = {| ret := to_int (reclaimable vm);
       killed := [];
       deathpending_timeout := lowmem_deathpending_timeout s |}.
Proof.
  intros H. unfold lowmem_shrink.
  destruct H as [H | H].
  - apply Z.leb_le in H. rewrite H. reflexivity.
  - rewrite H. unfold min_score_adj_of.
    rewrite Z.eqb_refl, orb_true_r. reflexivity.
Qed.

(** C9: every read of [lowmem_minfree] and of [lowmem_adj] made by the
    threshold evaluation is at an index below both configured lengths and
    below the declared size six; with lengths four and six (either way
    round) every read is below index four. *)
Theorem evaluate_reads_within_effective_length
    (cfg : kconfig) (s : lmk_state) (vm : vm_stat) (a : access) :
  In a (evaluate_trace cfg s vm) ->
  Z.of_nat (access_index a)
    < Z.min (Z.min (lowmem_adj_size s) (lowmem_minfree_size s)) (Z.of_nat ARRAY_SIZE)
  /\ (lowmem_adj_size s = 4 /\ lowmem_minfree_size s = 6
      \/ lowmem_adj_size s = 6 /\ lowmem_minfree_size s = 4 ->
      (access_index a < 4)%nat).
Proof.
  intros H. unfold evaluate_trace, evaluate in H.
  apply tier_loop_reads in H. destruct H as [_ H].
  rewrite array_size_min in H. split; [exact H|].
  intros [[E1 E2] | [E1 E2]]; rewrite E1, E2 in H; simpl in H; lia.
Qed.

Lemma evaluate_reads_within_effective_length_witness :
  In (RdAdj 3) (evaluate_trace build_default four_scores (vm_sample 5000 5000))
  /\ (Z.of_nat 3 < Z.min (Z.min 4 6) 6 /\ (3 < 4)%nat).
Proof.
  split.
  - vm_compute. tauto.
  - pose proof (evaluate_reads_within_effective_length build_default four_scores
                  (vm_sample 5000 5000) (RdAdj 3)) as H.
    destruct H as [H1 H2].
    + vm_compute. tauto.
    + split; [exact H1 | apply H2; left; split; reflexivity].
Defined.

(** C8: with a scan budget of zero, or when no tier is breached, the shrinker
    returns the sum of the active and inactive anonymous and file pages (as
    the [int] it is returned in, which is the sum itself whenever that fits),
    kills nothing, leaves the pending-death deadline alone and gives the same
    answer whatever the process list holds. *)
Theorem lowmem_shrink_count_only_query
    (cfg : kconfig) (s : lmk_state) (vm : vm_stat)
    (jiffies nr_to_scan : Z) (tasks : list task_struct) :
  nr_to_scan <= 0 \/ active_tier cfg s vm = None ->
  ret (lowmem_shrink cfg s vm jiffies nr_to_scan tasks)
    = to_int (NR_ACTIVE_ANON vm + NR_ACTIVE_FILE vm
              + NR_INACTIVE_ANON vm + NR_INACTIVE_FILE vm)
  /\ (INT_MIN <= NR_ACTIVE_ANON vm + NR_ACTIVE_FILE vm
                 + NR_INACTIVE_ANON vm + NR_INACTIVE_FILE vm <= INT_MAX ->
      ret (lowmem_shrink cfg s vm jiffies nr_to_scan tasks)
        = NR_ACTIVE_ANON vm + NR_ACTIVE_FILE vm
          + NR_INACTIVE_ANON vm + NR_INACTIVE_FILE vm)
  /\ killed (lowmem_shrink cfg s vm jiffies nr_to_scan tasks) = []
  /\ deathpending_timeout (lowmem_shrink cfg s vm jiffies nr_to_scan tasks)
       = lowmem_deathpending_timeout s
  /\ (forall tasks' : list task_struct,
        lowmem_shrink cfg s vm jiffies nr_to_scan tasks'
        = lowmem_shrink cfg s vm jiffies nr_to_scan tasks).
Proof.
  intros H.
  rewrite (lowmem_shrink_count_only cfg s vm jiffies nr_to_scan tasks H).
  simpl. unfold reclaimable. repeat split.
  - intros Hr. apply to_int_id. exact Hr.
  - intros tasks'. apply lowmem_shrink_count_only. exact H.
Qed.

Lemma lowmem_shrink_count_only_query_witness :
  ret (lowmem_shrink build_default lmk_init (vm_sample 100 100) 500 0
         scenario_tasks) = 10000
  /\ ret (lowmem_shrink build_default lmk_init (vm_sample 90000 90000) 500 128
            scenario_tasks) = 10000.
Proof.
  split.
  - pose proof (lowmem_shrink_count_only_query build_default lmk_init
                  (vm_sample 100 100) 500 0 scenario_tasks) as H.
    destruct H as (_ & H & _).
    + left. lia.
    + apply H. vm_compute. split; discriminate.
  - pose proof (lowmem_shrink_count_only_query build_default lmk_init
                  (vm_sample 90000 90000) 500 128 scenario_tasks) as H.
    destruct H as (_ & H & _).
    + right. vm_compute. reflexivity.
    + apply H. vm_compute. split; discriminate.
Defined.

(** ** Arrays *)

Lemma aget_insert (l : list Z) (i j : nat) (x : Z) :
  (i < length l)%nat ->
  aget (<[i := x]> l) j = if Nat.eq_dec j i then x else aget l j.
Proof.
  intros Hi. unfold aget. destruct (Nat.eq_dec j i) as [->|Hne].
  - rewrite list_lookup_insert_eq by exact Hi. reflexivity.
  - rewrite list_lookup_insert_ne by congruence. reflexivity.
Qed.

Lemma slot_insert (l : list (option task_struct)) (i j : nat) o :
  (i < length l)%nat ->
  slot (<[i := o]> l) j = if Nat.eq_dec j i then o else slot l j.
Proof.
  intros Hi. unfold slot. destruct (Nat.eq_dec j i) as [->|Hne].
  - rewrite list_lookup_insert_eq by exact Hi. reflexivity.
  - rewrite list_lookup_insert_ne by congruence. reflexivity.
Qed.

Lemma find_seq_first (P : nat -> bool) (k : nat) :
  forall a n, (a <= n < a + k)%nat -> P n = true ->
    (forall i, (a <= i < n)%nat -> P i = false) ->
    List.find P (seq a k) = Some n.
Proof.
  induction k as [|k IH]; intros a n Hn Hp Hlt; [lia|].
  simpl. destruct (Nat.eq_dec a n) as [->|Hne].
  - rewrite Hp. reflexivity.
  - rewrite (Hlt a) by lia. apply IH; [lia | exact Hp |].
    intros i Hi. apply Hlt. lia.
Qed.

(** ** The order of the selection *)

Lemma lexle_refl a : lexle a a.
Proof. unfold lexle. lia. Qed.

Lemma lexle_trans a b c : lexle a b -> lexle b c -> lexle a c.
Proof. unfold lexle. lia. Qed.

Lemma lexle_total a b : lexle a b \/ lexle b a.
Proof. unfold lexle. lia. Qed.

Lemma dominates_not_lexle a b :
  dominates a b <-> ~ lexle (task_key a) (task_key b).
Proof. unfold dominates, lexle, task_key. simpl. lia. Qed.

(** ** The search for the weakest entry *)

Section Weakest.
Variables scores sizes : list Z.

Lemma weakest_step_spec idx i :
  let r := weakest_step scores sizes idx i in
  (r = idx \/ r = i)
  /\ lexle (key_at scores sizes r) (key_at scores sizes idx)
  /\ lexle (key_at scores sizes r) (key_at scores sizes i).
Proof.
  unfold weakest_step, lexle, key_at. simpl.
  destruct (aget scores i <? aget scores idx) eqn:E1.
  { apply Z.ltb_lt in E1. lia. }
  apply Z.ltb_ge in E1.
  destruct (aget scores i =? aget scores idx) eqn:E2; simpl.
  - apply Z.eqb_eq in E2.
    destruct (aget sizes i <? aget sizes idx) eqn:E3.
    + apply Z.ltb_lt in E3. lia.
    + apply Z.ltb_ge in E3. lia.
  - apply Z.eqb_neq in E2. lia.
Qed.

Lemma fold_weakest_spec l :
  forall idx,
    let r := fold_left (weakest_step scores sizes) l idx in
    (r = idx \/ In r l)
    /\ lexle (key_at scores sizes r) (key_at scores sizes idx)
    /\ (forall i, In i l ->
          lexle (key_at scores sizes r) (key_at scores sizes i)).
Proof.
  induction l as [|i l IH]; intros idx; simpl.
  - split; [left; reflexivity|]. split; [apply lexle_refl | intros i []].
  - destruct (IH (weakest_step scores sizes idx i)) as (H1 & H2 & H3).
    destruct (weakest_step_spec idx i) as (S1 & S2 & S3).
    split; [|split].
    + destruct H1 as [H1 | H1]; [|right; right; exact H1].
      rewrite H1. destruct S1 as [S1 | S1]; rewrite S1; auto.
    + eapply lexle_trans; eassumption.
    + intros j [<- | Hj]; [eapply lexle_trans; eassumption | apply H3, Hj].
Qed.

Lemma recompute_weakest_spec idx :
  (idx < LOWMEM_DEATHPENDING_DEPTH)%nat ->
  let r := recompute_weakest scores sizes idx in
  (r < LOWMEM_DEATHPENDING_DEPTH)%nat
  /\ (forall i, (i < LOWMEM_DEATHPENDING_DEPTH)%nat -> lexle (key_at scores sizes r) (key_at scores sizes i)).
Proof.
  intros Hidx. unfold recompute_weakest.
  destruct (fold_weakest_spec (seq 0 LOWMEM_DEATHPENDING_DEPTH) idx)
    as (H1 & H2 & H3).
  split.
  - destruct H1 as [-> | H1]; [exact Hidx|].
    apply in_seq in H1. lia.
  - intros i Hi. apply H3. apply in_seq. lia.
Qed.
End Weakest.

(** ** The selection invariant *)

Lemma eligibleb_spec c t : eligibleb c t = true <-> eligible c t.
Proof.
  unfold eligibleb, eligible.
  rewrite !andb_true_iff, negb_true_iff, Z.leb_le, Z.ltb_lt. tauto.
Qed.

Lemma eligible_count_snoc c seen t :
  eligible_count c (seen ++ [t])
  = (eligible_count c seen + (if eligibleb c t then 1 else 0))%nat.
Proof.
  unfold eligible_count. rewrite List.filter_app, length_app. simpl.
  destruct (eligibleb c t); reflexivity.
Qed.

Lemma sel_inv_init c : sel_inv c [] (selection_init c).
Proof.
  split; try reflexivity.
  - intros i Hi. simpl.
    unfold LOWMEM_DEATHPENDING_DEPTH in Hi.
    destruct i as [|[|[|i]]]; simpl; try lia; (split; [intros H; exfalso; apply H; reflexivity | lia]).
  - intros i p. simpl. destruct i as [|[|[|i]]]; discriminate.
  - intros _ x [].
  - simpl. discriminate.
Qed.

Lemma sel_inv_skip c seen st t :
  ~ eligible c t -> sel_inv c seen st -> sel_inv c (seen ++ [t]) st.
Proof.
  intros Hne [L1 L2 L3 Hp Hs Hc Hpart Hfull].
  assert (Hb : eligibleb c t = false).
  { destruct (eligibleb c t) eqn:E; [|reflexivity].
    apply eligibleb_spec in E. contradiction. }
  split; try assumption.
  - intros i p H. destruct (Hs i p H) as (H1 & H2 & H3).
    repeat split; try assumption; try (apply in_or_app; left; assumption); apply H2.
  - rewrite eligible_count_snoc, Hb, Nat.add_0_r. exact Hc.
  - intros Hlt x Hx He. apply in_app_or in Hx.
    destruct Hx as [Hx | [<- | []]]; [|contradiction].
    apply Hpart; assumption.
  - intros Hn. destruct (Hfull Hn) as (F1 & F2 & F3).
    repeat split; try assumption.
    intros x Hx He. apply in_app_or in Hx.
    destruct Hx as [Hx | [<- | []]]; [|contradiction].
    apply F3; assumption.
Qed.

Lemma first_free_slot_prefix c seen st :
  sel_inv c seen st ->
  (all_selected_oom st < LOWMEM_DEATHPENDING_DEPTH)%nat ->
  first_free_slot (selected st) = Some (all_selected_oom st).
Proof.
  intros I Hlt. unfold first_free_slot. apply find_seq_first.
  - lia.
  - pose proof (inv_prefix _ _ _ I (all_selected_oom st) Hlt) as H.
    destruct (slot (selected st) (all_selected_oom st)); [|reflexivity].
    exfalso. assert (Hn : (all_selected_oom st < all_selected_oom st)%nat).
    { apply H. discriminate. }
    lia.
  - intros i Hi.
    assert (HiK : (i < LOWMEM_DEATHPENDING_DEPTH)%nat) by lia.
    pose proof (inv_prefix _ _ _ I i HiK) as H.
    destruct (slot (selected st) i); [reflexivity|].
    exfalso. apply H; [lia | reflexivity].
Qed.

(** The arrays after [p] was stored at [idx]. *)
Lemma slot_key_stored st sel n idx' idx adj size j :
  (idx < length (selected_tasksize st))%nat ->
  (idx < length (selected_oom_score_adj st))%nat ->
  slot_key {| selected := sel;
              selected_tasksize := <[idx := size]> (selected_tasksize st);
              selected_oom_score_adj := <[idx := adj]> (selected_oom_score_adj st);
              all_selected_oom := n;
              max_selected_oom_idx := idx' |} j
  = if Nat.eq_dec j idx then (adj, size) else slot_key st j.
Proof.
  intros H1 H2. unfold slot_key, key_at. simpl.
  rewrite !aget_insert by assumption.
  destruct (Nat.eq_dec j idx); reflexivity.
Qed.

Ltac sel_simpl :=
  cbn [selected selected_tasksize selected_oom_score_adj all_selected_oom
       max_selected_oom_idx].

Lemma select_task_inv c seen st p :
  sel_inv c seen st -> eligible c p ->
  sel_inv c (seen ++ [p])
    (select_task st p (oom_score_adj p) (resident_pages p)).
Proof.
  intros I He.
  pose proof I as [L1 L2 L3 Hp Hs Hc Hpart Hfull].
  assert (Hb : eligibleb c p = true) by (apply eligibleb_spec; exact He).
  assert (Hcnt : eligible_count c (seen ++ [p]) = S (eligible_count c seen)).
  { rewrite eligible_count_snoc, Hb. lia. }
  assert (Hin : In p (seen ++ [p])) by (apply in_or_app; right; left; reflexivity).
  unfold select_task.
  destruct (all_selected_oom st <? LOWMEM_DEATHPENDING_DEPTH)%nat eqn:Elt.
  - (* a free slot is left *)
    apply Nat.ltb_lt in Elt.
    rewrite (first_free_slot_prefix _ _ _ I Elt).
    set (n := all_selected_oom st) in *.
    assert (Hfree : slot (selected st) n = None).
    { destruct (slot (selected st) n) eqn:E; [|reflexivity].
      exfalso. assert (n < n)%nat; [apply Hp; [exact Elt | congruence] | lia]. }
    split; sel_simpl.
    + rewrite length_insert. exact L1.
    + rewrite length_insert. exact L2.
    + rewrite length_insert. exact L3.
    + intros i Hi. rewrite slot_insert by lia.
      destruct (Nat.eq_dec i n) as [->|Hne].
      * split; [lia | discriminate].
      * rewrite (Hp i Hi). lia.
    + intros i q. rewrite slot_insert by lia.
      rewrite slot_key_stored by lia.
      destruct (Nat.eq_dec i n) as [->|Hne].
      * intros [= <-]. repeat split; try assumption; apply He.
      * intros H. destruct (Hs i q H) as (H1 & H2 & H3).
        repeat split; try assumption; try apply H2.
        apply in_or_app. left. exact H1.
    + rewrite Hcnt. lia.
    + intros Hlt x Hx Hex. apply in_app_or in Hx.
      destruct Hx as [Hx | [<- | []]].
      * destruct (Hpart Elt x Hx Hex) as [i Hi]. exists i.
        rewrite slot_insert by lia.
        destruct (Nat.eq_dec i n) as [->|Hne]; [congruence | exact Hi].
      * exists n. rewrite slot_insert by lia.
        destruct (Nat.eq_dec n n); [reflexivity | contradiction].
    + intros Hn. rewrite Hn, Nat.eqb_refl.
      destruct (recompute_weakest_spec
                  (<[n := oom_score_adj p]> (selected_oom_score_adj st))
                  (<[n := resident_pages p]> (selected_tasksize st)) n Elt)
        as [R1 R2].
      split; [exact R1|]. split.
      * intros i Hi. apply R2. exact Hi.
      * intros x Hx Hex. left. apply in_app_or in Hx.
        destruct Hx as [Hx | [<- | []]].
        -- destruct (Hpart Elt x Hx Hex) as [i Hi]. exists i.
           rewrite slot_insert by lia.
           destruct (Nat.eq_dec i n) as [->|Hne]; [congruence | exact Hi].
        -- exists n. rewrite slot_insert by lia.
           destruct (Nat.eq_dec n n); [reflexivity | contradiction].
  - (* the arrays are full *)
    apply Nat.ltb_ge in Elt.
    assert (Hn : all_selected_oom st = LOWMEM_DEATHPENDING_DEPTH) by lia.
    destruct (Hfull Hn) as (F1 & F2 & F3).
    set (idx := max_selected_oom_idx st) in *.
    assert (Hcnt' : Nat.min LOWMEM_DEATHPENDING_DEPTH (eligible_count c (seen ++ [p]))
                    = LOWMEM_DEATHPENDING_DEPTH) by lia.
    destruct ((aget (selected_oom_score_adj st) idx <? oom_score_adj p)
              || (aget (selected_oom_score_adj st) idx =? oom_score_adj p)
                 && (aget (selected_tasksize st) idx <? resident_pages p)) eqn:Ecmp.
    + (* [p] replaces the weakest entry *)
      assert (Hdom : ~ lexle (task_key p) (slot_key st idx)).
      { unfold lexle, task_key, slot_key, key_at. simpl.
        apply orb_true_iff in Ecmp. destruct Ecmp as [E | E].
        - apply Z.ltb_lt in E. lia.
        - apply andb_true_iff in E. destruct E as [E1 E2].
          apply Z.eqb_eq in E1. apply Z.ltb_lt in E2. lia. }
      rewrite Hn, Nat.eqb_refl.
      destruct (recompute_weakest_spec
                  (<[idx := oom_score_adj p]> (selected_oom_score_adj st))
                  (<[idx := resident_pages p]> (selected_tasksize st)) idx F1)
        as [R1 R2].
      set (idx' := recompute_weakest _ _ idx) in *.
      assert (Hup : lexle (slot_key st idx)
                      (if Nat.eq_dec idx' idx then task_key p else slot_key st idx')).
      { destruct (Nat.eq_dec idx' idx).
        - destruct (lexle_total (slot_key st idx) (task_key p)); tauto.
        - apply F2. exact R1. }
      split; sel_simpl.
      * rewrite length_insert. exact L1.
      * rewrite length_insert. exact L2.
      * rewrite length_insert. exact L3.
      * intros i Hi. rewrite slot_insert by lia.
        destruct (Nat.eq_dec i idx) as [->|Hne].
        -- split; [lia | discriminate].
        -- rewrite (Hp i Hi). lia.
      * intros i q. rewrite slot_insert by lia.
        rewrite slot_key_stored by lia.
        destruct (Nat.eq_dec i idx) as [->|Hne].
        -- intros [= <-]. repeat split; try assumption; apply He.
        -- intros H. destruct (Hs i q H) as (H1 & H2 & H3).
           repeat split; try assumption; try apply H2.
           apply in_or_app. left. exact H1.
      * lia.
      * intros Hlt. lia.
      * intros _. split; [exact R1|]. split.
        -- intros i Hi. apply R2. exact Hi.
        -- intros x Hx Hex. rewrite slot_key_stored by lia.
           apply in_app_or in Hx. destruct Hx as [Hx | [<- | []]].
           ++ destruct (F3 x Hx Hex) as [[i Hi] | Hle].
              ** destruct (Nat.eq_dec i idx) as [->|Hne].
                 --- right. destruct (Hs idx x Hi) as (_ & _ & Hk).
                     rewrite <- Hk. exact Hup.
                 --- left. exists i. rewrite slot_insert by lia.
                     destruct (Nat.eq_dec i idx); [contradiction | exact Hi].
              ** right. eapply lexle_trans; [exact Hle | exact Hup].
           ++ left. exists idx. rewrite slot_insert by lia.
              destruct (Nat.eq_dec idx idx); [reflexivity | contradiction].
    + (* [p] does not beat the weakest entry *)
      assert (Hle : lexle (task_key p) (slot_key st idx)).
      { unfold lexle, task_key, slot_key, key_at. simpl.
        apply orb_false_iff in Ecmp. destruct Ecmp as [E1 E2].
        apply Z.ltb_ge in E1. apply andb_false_iff in E2.
        destruct E2 as [E2 | E2].
        - apply Z.eqb_neq in E2. lia.
        - apply Z.ltb_ge in E2. lia. }
      split; sel_simpl; try assumption.
      * intros i q H. destruct (Hs i q H) as (H1 & H2 & H3).
        repeat split; try assumption; try apply H2.
        apply in_or_app. left. exact H1.
      * lia.
      * intros Hlt. lia.
      * intros _. split; [exact F1|]. split; [exact F2|].
        intros x Hx Hex. apply in_app_or in Hx.
        destruct Hx as [Hx | [<- | []]]; [apply F3; assumption | right; exact Hle].
Qed.

(** ** The scan over the process list *)

Lemma scan_task_none jiffies timeout c st t :
  scan_task jiffies timeout c st t = None
  <-> death_pending jiffies timeout t = true.
Proof.
  unfold scan_task, death_pending, find_lock_task_mm, has_mm.
  destruct (PF_KTHREAD t); simpl; [split; discriminate|].
  destruct (mm t) as [m|]; simpl; [|split; discriminate].
  destruct (TIF_MEMDIE t && time_before_eq jiffies timeout) eqn:E.
  - tauto.
  - destruct (oom_score_adj t <? c); [split; discriminate|].
    destruct (get_mm_rss m <=? 0); split; discriminate.
Qed.

Lemma scan_task_some jiffies timeout c st t st' :
  scan_task jiffies timeout c st t = Some st' ->
  (~ eligible c t /\ st' = st)
  \/ (eligible c t
      /\ st' = select_task st t (oom_score_adj t) (resident_pages t)).
Proof.
  unfold scan_task, find_lock_task_mm, eligible, resident_pages.
  destruct (PF_KTHREAD t); [intros [= <-]; left; split; [intros [? _]; discriminate | reflexivity]|].
  destruct (mm t) as [m|]; [|intros [= <-]; left; split; [lia | reflexivity]].
  destruct (TIF_MEMDIE t && time_before_eq jiffies timeout); [discriminate|].
  destruct (oom_score_adj t <? c) eqn:E1.
  { apply Z.ltb_lt in E1. intros [= <-]. left. split; [lia | reflexivity]. }
  apply Z.ltb_ge in E1.
  destruct (get_mm_rss m <=? 0) eqn:E2.
  { apply Z.leb_le in E2. intros [= <-]. left. split; [lia | reflexivity]. }
  apply Z.leb_gt in E2. intros [= <-]. right.
  split; [repeat split; lia | reflexivity].
Qed.

Lemma scan_task_inv jiffies timeout c seen st t st' :
  sel_inv c seen st ->
  scan_task jiffies timeout c st t = Some st' ->
  sel_inv c (seen ++ [t]) st'.
Proof.
  intros I H. apply scan_task_some in H.
  destruct H as [[Hne ->] | [He ->]].
  - apply sel_inv_skip; assumption.
  - apply select_task_inv; assumption.
Qed.

Lemma scan_inv jiffies timeout c tasks :
  forall seen st st',
    sel_inv c seen st ->
    scan jiffies timeout c tasks st = Some st' ->
    sel_inv c (seen ++ tasks) st'.
Proof.
  induction tasks as [|t tasks IH]; intros seen st st' I H; simpl in H.
  - injection H as <-. rewrite app_nil_r. exact I.
  - destruct (scan_task jiffies timeout c st t) as [st1|] eqn:E; [|discriminate].
    replace (seen ++ t :: tasks) with ((seen ++ [t]) ++ tasks)
      by (rewrite <- app_assoc; reflexivity).
    eapply IH; [|exact H]. eapply scan_task_inv; eassumption.
Qed.

(** The scan stops early exactly when some process of the list reaches the
    TIF_MEMDIE check within the deadline. *)
Lemma scan_none jiffies timeout c tasks :
  forall st,
    scan jiffies timeout c tasks st = None
    <-> existsb (death_pending jiffies timeout) tasks = true.
Proof.
  induction tasks as [|t tasks IH]; intros st; simpl.
  - split; discriminate.
  - destruct (scan_task jiffies timeout c st t) as [st1|] eqn:E.
    + assert (Hd : death_pending jiffies timeout t = false).
      { destruct (death_pending jiffies timeout t) eqn:D; [|reflexivity].
        apply scan_task_none with (c := c) (st := st) in D. congruence. }
      rewrite Hd. simpl. apply IH.
    + apply scan_task_none in E. rewrite E. simpl. tauto.
Qed.

Lemma scan_completes jiffies timeout c tasks st :
  (forall t, In t tasks -> death_pending jiffies timeout t = false) ->
  exists st', scan jiffies timeout c tasks st = Some st'.
Proof.
  intros H. destruct (scan jiffies timeout c tasks st) as [st'|] eqn:E.
  - exists st'. reflexivity.
  - apply scan_none in E. apply existsb_exists in E.
    destruct E as (t & Ht & Hd). rewrite (H t Ht) in Hd. discriminate.
Qed.

(** ** The kill loop *)

Lemma slot_In (sel : list (option task_struct)) p :
  In (Some p) sel <-> exists i, slot sel i = Some p.
Proof.
  unfold slot. rewrite <- list_elem_of_In, list_elem_of_lookup.
  split; intros [i Hi]; exists i.
  - rewrite Hi. reflexivity.
  - destruct (sel !! i) as [o|]; simpl in Hi; [congruence | discriminate].
Qed.

Lemma kill_fold_killed cfg jiffies st l :
  forall acc,
    killed (fold_left (kill_step cfg jiffies st) l acc)
    = killed acc ++ flat_map (fun i => option_list (slot (selected st) i)) l.
Proof.
  induction l as [|i l IH]; intros acc; simpl.
  - rewrite app_nil_r. reflexivity.
  - rewrite IH. unfold kill_step.
    destruct (slot (selected st) i); simpl; [|reflexivity].
    rewrite <- app_assoc. reflexivity.
Qed.

Lemma kill_selected_killed cfg jiffies st rem timeout :
  killed (kill_selected cfg jiffies st rem timeout)
  = flat_map (fun i => option_list (slot (selected st) i))
      (seq 0 LOWMEM_DEATHPENDING_DEPTH).
Proof. unfold kill_selected. rewrite kill_fold_killed. reflexivity. Qed.

Lemma count_prefix (sel : list (option task_struct)) (n k : nat) :
  forall a,
    (forall i, (a <= i < a + k)%nat -> (slot sel i <> None <-> (i < n)%nat)) ->
    length (flat_map (fun i => option_list (slot sel i)) (seq a k))
    = (Nat.min (a + k) n - Nat.min a n)%nat.
Proof.
  induction k as [|k IH]; intros a H.
  - simpl. rewrite Nat.add_0_r. lia.
  - assert (Ha : slot sel a <> None <-> (a < n)%nat) by (apply H; lia).
    change (flat_map (fun i => option_list (slot sel i)) (seq a (S k)))
      with (option_list (slot sel a)
            ++ flat_map (fun i => option_list (slot sel i)) (seq (S a) k)).
    rewrite length_app, IH by (intros i Hi; apply H; lia).
    destruct (slot sel a) as [p|]; simpl length.
    + assert (a < n)%nat by (apply Ha; discriminate). lia.
    + assert (~ (a < n)%nat) by (intros Hlt; apply Ha in Hlt; congruence). lia.
Qed.

Lemma killed_length c seen cfg jiffies st rem timeout :
  sel_inv c seen st ->
  length (killed (kill_selected cfg jiffies st rem timeout))
  = Nat.min LOWMEM_DEATHPENDING_DEPTH (eligible_count c seen).
Proof.
  intros I. rewrite kill_selected_killed.
  rewrite (count_prefix _ (all_selected_oom st)).
  - rewrite (inv_count _ _ _ I). lia.
  - intros i Hi. apply (inv_prefix _ _ _ I). lia.
Qed.

Lemma killed_slot c seen cfg jiffies st rem timeout p :
  sel_inv c seen st ->
  In p (killed (kill_selected cfg jiffies st rem timeout))
  <-> In (Some p) (selected st).
Proof.
  intros I. rewrite kill_selected_killed, slot_In, in_flat_map. split.
  - intros (i & _ & Hi). exists i.
    destruct (slot (selected st) i) as [q|]; simpl in Hi; [|contradiction].
    destruct Hi as [-> | []]. reflexivity.
  - intros [i Hi]. exists i. split; [|rewrite Hi; left; reflexivity].
    apply in_seq.
    destruct (Nat.lt_ge_cases i LOWMEM_DEATHPENDING_DEPTH) as [Hlt | Hge]; [lia|].
    exfalso. unfold slot in Hi.
    rewrite lookup_ge_None_2 in Hi by (rewrite (inv_len_sel _ _ _ I); exact Hge).
    discriminate.
Qed.
(** ** The candidate pool at the end of the scan *)

Lemma scan_from_init jiffies timeout c tasks st :
  scan jiffies timeout c tasks (selection_init c) = Some st ->
  sel_inv c tasks st.
Proof.
  intros H. change tasks with ([] ++ tasks).
  eapply scan_inv; [apply sel_inv_init | exact H].
Qed.

(** Every eligible process is matched or beaten by some selected one. *)
Lemma pool_covers c tasks st x :
  sel_inv c tasks st -> In x tasks -> eligible c x ->
  exists y, In (Some y) (selected st) /\ ~ dominates x y.
Proof.
  intros I Hx He.
  destruct (Nat.lt_ge_cases (all_selected_oom st) LOWMEM_DEATHPENDING_DEPTH)
    as [Hlt | Hge].
  - destruct (inv_partial _ _ _ I Hlt x Hx He) as [i Hi].
    exists x. split; [apply slot_In; exists i; exact Hi|].
    rewrite dominates_not_lexle. intros H. apply H, lexle_refl.
  - assert (Hn : all_selected_oom st = LOWMEM_DEATHPENDING_DEPTH).
    { rewrite (inv_count _ _ _ I) in *. lia. }
    destruct (inv_full _ _ _ I Hn) as (F1 & F2 & F3).
    destruct (F3 x Hx He) as [[i Hi] | Hle].
    + exists x. split; [apply slot_In; exists i; exact Hi|].
      rewrite dominates_not_lexle. intros H. apply H, lexle_refl.
    + destruct (slot (selected st) (max_selected_oom_idx st)) as [y|] eqn:Ey.
      * exists y. split; [apply slot_In; eexists; exact Ey|].
        destruct (inv_slot _ _ _ I _ _ Ey) as (_ & _ & Hk).
        rewrite dominates_not_lexle, <- Hk. tauto.
      * exfalso. apply (inv_prefix _ _ _ I _ F1); [lia | exact Ey].
Qed.

(** C2: when the scan over the process list completes, every selected
    process is a process of the list that passed the filters (not a kernel
    thread, score at least the cutoff, resident pages above zero), and no
    process that passed the filters and was left out beats every selected
    one; indeed every process that passed the filters is matched or beaten
    by some selected process. *)
Theorem selection_pool_invariant
    (jiffies timeout c : Z) (tasks : list task_struct) (st : selection) :
  scan jiffies timeout c tasks (selection_init c) = Some st ->
  (forall p, In (Some p) (selected st) ->
     In p tasks
     /\ PF_KTHREAD p = false /\ c <= oom_score_adj p /\ 0 < resident_pages p)
  /\ (forall x, In x tasks -> eligible c x -> ~ In (Some x) (selected st) ->
        ~ (forall y, In (Some y) (selected st) -> dominates x y))
  /\ (forall x, In x tasks -> eligible c x ->
        exists y, In (Some y) (selected st) /\ ~ dominates x y).
Proof.
  intros H. apply scan_from_init in H. split; [|split].
  - intros p Hp. apply slot_In in Hp. destruct Hp as [i Hi].
    destruct (inv_slot _ _ _ H _ _ Hi) as (H1 & H2 & _).
    split; [exact H1 | exact H2].
  - intros x Hx He _ Hall.
    destruct (pool_covers _ _ _ _ H Hx He) as (y & Hy & Hnd).
    apply Hnd, Hall, Hy.
  - intros x Hx He. eapply pool_covers; eassumption.
Qed.

Lemma selection_pool_invariant_witness :
  scan 0 0 0 scenario_tasks (selection_init 0) = Some scenario_pool
  /\ ~ (forall y, In (Some y) (selected scenario_pool) ->
          dominates (user_task 2 5 50) y).
Proof.
  split; [reflexivity|].
  destruct (selection_pool_invariant 0 0 0 scenario_tasks scenario_pool
              eq_refl) as (_ & H & _).
  apply H.
  - simpl. tauto.
  - unfold eligible. simpl. repeat split; lia.
  - simpl. intros [E | [E | [E | []]]]; discriminate.
Defined.

Lemma eligible_count_above c tasks :
  (forall t, In t tasks -> oom_score_adj t < c) ->
  eligible_count c tasks = 0%nat.
Proof.
  unfold eligible_count. induction tasks as [|t tasks IH]; intros H; simpl.
  - reflexivity.
  - assert (E : eligibleb c t = false).
    { unfold eligibleb. assert (Ht : oom_score_adj t < c) by (apply H; left; reflexivity).
      apply Z.leb_gt in Ht. rewrite Ht, andb_false_r. reflexivity. }
    rewrite E. apply IH. intros t' Ht'. apply H. right. exact Ht'.
Qed.

(** C3: when a tier is breached, the scan budget is positive and no process
    of the list reaches the TIF_MEMDIE check within the deadline, the number
    of processes killed is at most LOWMEM_DEATHPENDING_DEPTH (three) and at
    least the minimum of three and the number of processes passing the
    filters (it is that minimum). The cutoff of the tier is not the value
    [OOM_SCORE_ADJ_MAX + 1] the code keeps for no tier, or no score of the
    list exceeds [OOM_SCORE_ADJ_MAX]. *)
Theorem victims_between_min_and_depth
    (cfg : kconfig) (s : lmk_state) (vm : vm_stat) (jiffies nr_to_scan : Z)
    (tasks : list task_struct) (t : tier) :
  active_tier cfg s vm = Some t ->
  0 < nr_to_scan ->
  (forall p, In p tasks ->
     death_pending jiffies (lowmem_deathpending_timeout s) p = false) ->
  (tier_min_score_adj t <> OOM_SCORE_ADJ_MAX + 1
   \/ forall p, In p tasks -> oom_score_adj p <= OOM_SCORE_ADJ_MAX) ->
  let victims :=
    length (killed (lowmem_shrink cfg s vm jiffies nr_to_scan tasks)) in
  let eligibleCount := eligible_count (tier_min_score_adj t) tasks in
  (victims <= LOWMEM_DEATHPENDING_DEPTH)%nat
  /\ (Nat.min LOWMEM_DEATHPENDING_DEPTH eligibleCount <= victims)%nat
  /\ LOWMEM_DEATHPENDING_DEPTH = 3%nat.
Proof.
  intros Ht Hnr Hpend Hwf. cbv zeta.
  unfold lowmem_shrink. rewrite Ht. unfold min_score_adj_of.
  assert (Enr : (nr_to_scan <=? 0) = false) by (apply Z.leb_gt; exact Hnr).
  rewrite Enr, orb_false_l.
  destruct (tier_min_score_adj t =? OOM_SCORE_ADJ_MAX + 1) eqn:Ec.
  - apply Z.eqb_eq in Ec. destruct Hwf as [Hwf | Hwf]; [contradiction|].
    rewrite eligible_count_above.
    + simpl. repeat split; lia.
    + intros p Hp. specialize (Hwf p Hp). lia.
  - destruct (scan_completes jiffies (lowmem_deathpending_timeout s)
                (tier_min_score_adj t) tasks
                (selection_init (tier_min_score_adj t)) Hpend) as [st Hst].
    rewrite Hst. apply scan_from_init in Hst.
    rewrite (killed_length _ _ _ _ _ _ _ Hst).
    repeat split; lia.
Qed.

Lemma victims_between_min_and_depth_witness :
  (length (killed (lowmem_shrink build_default lmk_init (vm_sample 100 100)
                     500 128 scenario_tasks)) <= 3)%nat
  /\ (Nat.min 3 5
      <= length (killed (lowmem_shrink build_default lmk_init (vm_sample 100 100)
                           500 128 scenario_tasks)))%nat.
Proof.
  destruct (victims_between_min_and_depth build_default lmk_init
              (vm_sample 100 100) 500 128 scenario_tasks
              {| tier_index := 0; tier_min_score_adj := 0;
                 tier_target_free := 1336 |})
    as (H1 & H2 & _).
  - reflexivity.
  - lia.
  - intros p Hp. simpl in Hp.
    destruct Hp as [<- | [<- | [<- | [<- | [<- | []]]]]]; reflexivity.
  - left. discriminate.
  - split; [exact H1 | exact H2].
Defined.
(** ** The cutoff of the active tier *)

Lemma killed_eligible cfg s vm jiffies nr_to_scan tasks p :
  In p (killed (lowmem_shrink cfg s vm jiffies nr_to_scan tasks)) ->
  In p tasks /\ eligible (min_score_adj_of (active_tier cfg s vm)) p.
Proof.
  unfold lowmem_shrink.
  destruct ((nr_to_scan <=? 0)
            || (min_score_adj_of (active_tier cfg s vm) =? OOM_SCORE_ADJ_MAX + 1));
    [intros []|].
  destruct (scan jiffies (lowmem_deathpending_timeout s)
              (min_score_adj_of (active_tier cfg s vm)) tasks
              (selection_init (min_score_adj_of (active_tier cfg s vm))))
    as [st|] eqn:E; [|intros []].
  apply scan_from_init in E. intros H.
  apply (killed_slot _ _ _ _ _ _ _ _ E) in H.
  apply slot_In in H. destruct H as [i Hi].
  destruct (inv_slot _ _ _ E _ _ Hi) as (Hin & He & _). split; assumption.
Qed.

Example two_tiers_scenario :
  option_map tier_index (active_tier build_default two_tiers (vm_sample 3000 3000))
    = Some 1%nat
  /\ min_score_adj_of (active_tier build_default two_tiers (vm_sample 3000 3000))
     = 8.
Proof. split; reflexivity. Qed.

(** C1, as the code has it: the evaluator selects the smallest index below
    the effective length whose minfree entry exceeds both the free pages and
    the file pages (in the CONFIG_VMWARE_MVP build: exceeds the file pages;
    no build tests the free pages alone). The cutoff score of that index is
    the threshold of the pass: nothing below it is killed. Without such an
    index the threshold stays at [OOM_SCORE_ADJ_MAX + 1] and the pass takes
    no action. The table need not be ascending. *)
Theorem evaluator_selects_first_breached_tier
    (cfg : kconfig) (s : lmk_state) (vm : vm_stat) :
  let F := other_free vm in
  let C := other_file vm in
  let N := Z.min (Z.min (lowmem_adj_size s) (lowmem_minfree_size s))
                 (Z.of_nat ARRAY_SIZE) in
  let test (i : nat) :=
    if CONFIG_VMWARE_MVP cfg
    then C < aget (lowmem_minfree s) i
    else F < aget (lowmem_minfree s) i /\ C < aget (lowmem_minfree s) i in
  match active_tier cfg s vm with
  | Some t =>
      Z.of_nat (tier_index t) < N
      /\ test (tier_index t)
      /\ (forall j, (j < tier_index t)%nat -> ~ test j)
      /\ min_score_adj_of (Some t) = aget (lowmem_adj s) (tier_index t)
      /\ (forall jiffies nr_to_scan tasks p,
            In p (killed (lowmem_shrink cfg s vm jiffies nr_to_scan tasks)) ->
            aget (lowmem_adj s) (tier_index t) <= oom_score_adj p)
  | None =>
      (forall j, Z.of_nat j < N -> ~ test j)
      /\ min_score_adj_of None = OOM_SCORE_ADJ_MAX + 1
      /\ (forall jiffies nr_to_scan tasks,
            lowmem_shrink cfg s vm jiffies nr_to_scan tasks
            = {| ret := to_int (reclaimable vm);
                 killed := [];
                 deathpending_timeout := lowmem_deathpending_timeout s |})
  end.
Proof.
  cbv zeta. rewrite <- array_size_min.
  pose proof (active_tier_value cfg s vm) as H.
  destruct (active_tier cfg s vm) as [t|] eqn:Et.
  - destruct H as (H1 & H2 & H3 & H4).
    repeat split; try assumption; try apply H2.
    intros jiffies nr_to_scan tasks p Hp.
    apply killed_eligible in Hp. destruct Hp as (_ & _ & Hp & _).
    rewrite Et in Hp. simpl in Hp. rewrite <- H4. exact Hp.
  - split; [exact H|]. split; [reflexivity|].
    intros jiffies nr_to_scan tasks.
    apply lowmem_shrink_count_only. right. exact Et.
Qed.

(** C1 as worded fails: no assignment of the two modes of the specification
    to the two builds of the code makes the evaluator select the smallest
    index with [F < minfree[i]] (and [C < minfree[i]] in the alternate mode).
    The CONFIG_VMWARE_MVP build selects tier 0 with no free-page shortage,
    and the default build selects nothing although the free pages are below
    every threshold. *)
Lemma free_pages_alone_do_not_select :
  ~ (exists alternate : bool -> bool,
       forall (mvp : bool) (hz : Z) (s : lmk_state) (vm : vm_stat),
         option_map tier_index
           (active_tier {| CONFIG_VMWARE_MVP := mvp; HZ := hz |} s vm)
         = spec_active_index (alternate mvp) s vm)
  /\ option_map tier_index
       (active_tier build_mvp lmk_init (vm_sample 50000 0)) = Some 0%nat
  /\ spec_active_index false lmk_init (vm_sample 50000 0) = None
  /\ spec_active_index true lmk_init (vm_sample 50000 0) = None
  /\ active_tier build_default lmk_init (vm_sample 0 50000) = None
  /\ spec_active_index false lmk_init (vm_sample 0 50000) = Some 0%nat.
Proof.
  split; [|repeat split; reflexivity].
  intros [alternate H].
  specialize (H true 200 lmk_init (vm_sample 50000 0)).
  destruct (alternate true); vm_compute in H; discriminate.
Qed.

(** ** The selection scenario *)

Lemma scan_task_user jiffies timeout c st p score size :
  c <= score -> 0 < size ->
  scan_task jiffies timeout c st (user_task p score size)
  = Some (select_task st (user_task p score size) score size).
Proof.
  intros Hc Hs. unfold scan_task, find_lock_task_mm, user_task. simpl.
  apply Z.ltb_ge in Hc. rewrite Hc.
  assert (E : (size <=? 0) = false) by (apply Z.leb_gt; exact Hs).
  rewrite E. reflexivity.
Qed.

(** C4: with the three slots of the code and the candidates (5,10), (5,50),
    (8,10), (8,20), (9,5) passing the filters in this order, the scan ends
    with exactly the candidates (9,5), (8,20) and (8,10) selected. *)
Theorem scenario_selects_top_three (jiffies timeout c : Z) :
  c <= 5 ->
  LOWMEM_DEATHPENDING_DEPTH = 3%nat
  /\ map task_key scenario_tasks = [(5, 10); (5, 50); (8, 10); (8, 20); (9, 5)]
  /\ exists st,
       scan jiffies timeout c scenario_tasks (selection_init c) = Some st
       /\ map (option_map task_key) (selected st)
          = [Some (8, 20); Some (9, 5); Some (8, 10)]
       /\ (forall k, In (Some k) (map (option_map task_key) (selected st))
                     <-> k = (9, 5) \/ k = (8, 20) \/ k = (8, 10)).
Proof.
  intros Hc. split; [reflexivity|]. split; [reflexivity|].
  exists scenario_pool. split.
  - unfold scenario_tasks, scan.
    rewrite !scan_task_user by lia. reflexivity.
  - split; [reflexivity|]. intros k. simpl. split.
    + intros [E | [E | [E | []]]]; injection E as <-; tauto.
    + intros [-> | [-> | ->]]; tauto.
Qed.

Lemma scenario_selects_top_three_witness :
  exists st,
    scan 0 0 5 scenario_tasks (selection_init 5) = Some st
    /\ map (option_map task_key) (selected st)
       = [Some (8, 20); Some (9, 5); Some (8, 10)].
Proof.
  destruct (scenario_selects_top_three 0 0 5) as (_ & _ & st & H1 & H2 & _).
  - lia.
  - exists st. split; [exact H1 | exact H2].
Defined.

(** ** The pending-death check *)

(** C5, as the code has it: when the scan takes place (positive budget, a
    threshold other than [OOM_SCORE_ADJ_MAX + 1]) and the process list holds
    a process that is not a kernel thread, still has its memory descriptor
    and carries TIF_MEMDIE while [jiffies] has not passed
    [lowmem_deathpending_timeout], the pass returns 0, kills nothing and
    leaves the deadline as it was, from whatever candidates the scan had
    gathered. Kernel threads and processes without memory descriptor are
    skipped before the check. *)
Theorem pending_death_aborts_pass
    (cfg : kconfig) (s : lmk_state) (vm : vm_stat) (jiffies nr_to_scan : Z)
    (tasks : list task_struct) (p : task_struct) :
  0 < nr_to_scan ->
  min_score_adj_of (active_tier cfg s vm) <> OOM_SCORE_ADJ_MAX + 1 ->
  In p tasks ->
  PF_KTHREAD p = false ->
  mm p <> None ->
  TIF_MEMDIE p = true ->
  time_before_eq jiffies (lowmem_deathpending_timeout s) = true ->
  lowmem_shrink cfg s vm jiffies nr_to_scan tasks
  = {| ret := 0; killed := [];
       deathpending_timeout := lowmem_deathpending_timeout s |}
  /\ (forall st : selection,
        scan jiffies (lowmem_deathpending_timeout s)
          (min_score_adj_of (active_tier cfg s vm)) tasks st = None).
Proof.
  intros Hnr Hc Hin Hk Hmm Hdie Htime.
  assert (Hscan : forall st,
            scan jiffies (lowmem_deathpending_timeout s)
              (min_score_adj_of (active_tier cfg s vm)) tasks st = None).
  { intros st. apply scan_none. apply existsb_exists. exists p.
    split; [exact Hin|]. unfold death_pending, has_mm.
    rewrite Hk, Hdie, Htime. destruct (mm p); [reflexivity | contradiction]. }
  split; [|exact Hscan].
  unfold lowmem_shrink.
  assert (E1 : (nr_to_scan <=? 0) = false) by (apply Z.leb_gt; exact Hnr).
  assert (E2 : (min_score_adj_of (active_tier cfg s vm) =? OOM_SCORE_ADJ_MAX + 1)
               = false) by (apply Z.eqb_neq; exact Hc).
  rewrite E1, E2, Hscan. reflexivity.
Qed.

Lemma pending_death_aborts_pass_witness :
  lowmem_shrink build_default lmk_pending (vm_sample 100 100) 500 128
    (scenario_tasks ++ [dying_victim])
  = {| ret := 0; killed := []; deathpending_timeout := 600 |}.
Proof.
  destruct (pending_death_aborts_pass build_default lmk_pending
              (vm_sample 100 100) 500 128
              (scenario_tasks ++ [dying_victim]) dying_victim) as [H _].
  - lia.
  - vm_compute. discriminate.
  - simpl. tauto.
  - reflexivity.
  - simpl. discriminate.
  - reflexivity.
  - reflexivity.
  - exact H.
Defined.

(** Whenever a process of the list reaches the check within the deadline,
    nothing is killed, scan or no scan. *)
Lemma pending_kills_nothing cfg s vm jiffies nr_to_scan tasks p :
  In p tasks ->
  death_pending jiffies (lowmem_deathpending_timeout s) p = true ->
  killed (lowmem_shrink cfg s vm jiffies nr_to_scan tasks) = [].
Proof.
  intros Hin Hd. unfold lowmem_shrink.
  destruct ((nr_to_scan <=? 0)
            || (min_score_adj_of (active_tier cfg s vm) =? OOM_SCORE_ADJ_MAX + 1));
    [reflexivity|].
  assert (E : scan jiffies (lowmem_deathpending_timeout s)
                (min_score_adj_of (active_tier cfg s vm)) tasks
                (selection_init (min_score_adj_of (active_tier cfg s vm)))
              = None).
  { apply scan_none, existsb_exists. exists p. split; assumption. }
  rewrite E. reflexivity.
Qed.

Lemma kill_fold_timeout cfg jiffies st l :
  forall acc,
    deathpending_timeout (fold_left (kill_step cfg jiffies st) l acc)
    = match flat_map (fun i => option_list (slot (selected st) i)) l with
      | [] => deathpending_timeout acc
      | _ :: _ => to_ulong (jiffies + HZ cfg)
      end.
Proof.
  induction l as [|i l IH]; intros acc; simpl; [reflexivity|].
  rewrite IH. unfold kill_step.
  destruct (slot (selected st) i) as [p|]; simpl; [|reflexivity].
  destruct (flat_map _ l); reflexivity.
Qed.

(** A pass that killed something set the deadline to [jiffies + HZ]. *)
Lemma killed_sets_deadline cfg s vm jiffies nr_to_scan tasks :
  killed (lowmem_shrink cfg s vm jiffies nr_to_scan tasks) <> [] ->
  deathpending_timeout (lowmem_shrink cfg s vm jiffies nr_to_scan tasks)
  = to_ulong (jiffies + HZ cfg).
Proof.
  unfold lowmem_shrink.
  destruct ((nr_to_scan <=? 0)
            || (min_score_adj_of (active_tier cfg s vm) =? OOM_SCORE_ADJ_MAX + 1));
    [intros H; contradiction H; reflexivity|].
  destruct (scan _ _ _ _ _) as [st|]; [|intros H; contradiction H; reflexivity].
  rewrite kill_selected_killed. unfold kill_selected.
  rewrite kill_fold_timeout.
  destruct (flat_map _ _); [intros H; contradiction H; reflexivity | reflexivity].
Qed.

(** A victim of one pass that is still in the process list with its memory
    descriptor keeps the next pass, while [jiffies] has not passed the
    deadline set by the kill, from killing anything. *)
Lemma next_pass_within_cooldown_kills_nothing
    cfg s vm jiffies nr_to_scan tasks p cfg' vm' jiffies' nr_to_scan' tasks' :
  let r := lowmem_shrink cfg s vm jiffies nr_to_scan tasks in
  In p (killed r) ->
  In (set_memdie p) tasks' ->
  time_before_eq jiffies' (to_ulong (jiffies + HZ cfg)) = true ->
  killed (lowmem_shrink cfg' (after_shrink s r) vm' jiffies' nr_to_scan' tasks')
  = [].
Proof.
  intros r Hp Hin Htime. subst r.
  assert (Hne : killed (lowmem_shrink cfg s vm jiffies nr_to_scan tasks) <> []) by (intros E; rewrite E in Hp; destruct Hp).
  pose proof (killed_sets_deadline _ _ _ _ _ _ Hne) as Hd.
  apply killed_eligible in Hp. destruct Hp as (_ & Hk & _ & Hrss).
  apply (pending_kills_nothing _ _ _ _ _ _ (set_memdie p) Hin).
  unfold death_pending, has_mm, after_shrink, set_memdie.
  cbn [PF_KTHREAD TIF_MEMDIE mm lowmem_deathpending_timeout].
  rewrite Hd, Hk, Htime. unfold resident_pages in Hrss.
  destruct (mm p); [reflexivity | lia].
Qed.

(** C5 as worded fails: a process carrying TIF_MEMDIE within the deadline
    does not stop the pass when it has already dropped its memory descriptor
    or is a kernel thread; the pass goes on and kills three processes. *)
Lemma flagged_process_skipped_before_check :
  TIF_MEMDIE exited_victim = true
  /\ TIF_MEMDIE flagged_kthread = true
  /\ time_before_eq 500 (lowmem_deathpending_timeout lmk_pending) = true
  /\ lowmem_shrink build_default lmk_pending (vm_sample 100 100) 500 128
       (exited_victim :: scenario_tasks)
     = {| ret := 9965;
          killed := [user_task 4 8 20; user_task 5 9 5; user_task 3 8 10];
          deathpending_timeout := 700 |}
  /\ lowmem_shrink build_default lmk_pending (vm_sample 100 100) 500 128
       (flagged_kthread :: scenario_tasks)
     = {| ret := 9965;
          killed := [user_task 4 8 20; user_task 5 9 5; user_task 3 8 10];
          deathpending_timeout := 700 |}.
Proof. repeat split; reflexivity. Qed.
(** ** Auto-detection of oom_adj values *)

Lemma quot_17_bounds a :
  let q := Z.quot a 17 in
  17 * q - 16 <= a <= 17 * q + 16 /\ (0 <= a -> 17 * q <= a) /\ (a <= 0 -> a <= 17 * q).
Proof.
  cbv zeta.
  pose proof (Z.quot_rem' a 17) as E.
  pose proof (Z.rem_bound_abs a 17) as B.
  assert (H0 : 0 <= a -> 0 <= Z.rem a 17).
  { intros H. apply Z.rem_nonneg; lia. }
  assert (H1 : a <= 0 -> Z.rem a 17 <= 0).
  { intros H. apply Z.rem_nonpos; lia. }
  lia.
Qed.

Lemma oom_adj_conversion_max :
  lowmem_oom_adj_to_oom_score_adj OOM_ADJUST_MAX = OOM_SCORE_ADJ_MAX.
Proof. reflexivity. Qed.

Lemma oom_adj_conversion_linear x :
  x <> OOM_ADJUST_MAX -> SHRT_MIN <= x <= SHRT_MAX ->
  lowmem_oom_adj_to_oom_score_adj x
  = Z.quot (x * OOM_SCORE_ADJ_MAX) (- OOM_DISABLE).
Proof.
  intros Hne Hr. unfold lowmem_oom_adj_to_oom_score_adj.
  apply Z.eqb_neq in Hne. rewrite Hne.
  unfold SHRT_MIN, SHRT_MAX, OOM_SCORE_ADJ_MAX, OOM_DISABLE in *.
  change (- -17) with 17.
  assert (Hi : to_int (x * 1000) = x * 1000).
  { apply to_int_id. unfold INT_MIN, INT_MAX. lia. }
  rewrite Hi. apply to_int_id. unfold INT_MIN, INT_MAX.
  pose proof (quot_17_bounds (x * 1000)) as Hq. cbv zeta in Hq. lia.
Qed.

Lemma aget_ge (l : list Z) i : (length l <= i)%nat -> aget l i = 0.
Proof. intros H. unfold aget. rewrite lookup_ge_None_2 by exact H. reflexivity. Qed.

Lemma aget_convert_step adj a i :
  aget (convert_step adj a) i
  = if Nat.eq_dec i a
    then to_short (lowmem_oom_adj_to_oom_score_adj (aget adj a))
    else aget adj i.
Proof.
  unfold convert_step.
  destruct (Nat.lt_ge_cases a (length adj)) as [Hlt | Hge].
  - apply aget_insert. exact Hlt.
  - rewrite list_insert_ge by exact Hge.
    destruct (Nat.eq_dec i a) as [->|]; [|reflexivity].
    rewrite aget_ge by exact Hge. reflexivity.
Qed.

Lemma aget_convert_fold k :
  forall a adj i,
    aget (fold_left convert_step (seq a k) adj) i
    = if (a <=? i)%nat && (i <? a + k)%nat
      then to_short (lowmem_oom_adj_to_oom_score_adj (aget adj i))
      else aget adj i.
Proof.
  induction k as [|k IH]; intros a adj i; simpl.
  - replace (i <? a + 0)%nat with (i <? a)%nat by (f_equal; lia).
    destruct (a <=? i)%nat eqn:E1; [|reflexivity].
    apply Nat.leb_le in E1.
    assert (E2 : (i <? a)%nat = false) by (apply Nat.ltb_ge; exact E1).
    rewrite E2. reflexivity.
  - rewrite IH, !aget_convert_step.
    destruct (Nat.eq_dec i a) as [->|Hne].
    + assert (E1 : (S a <=? a)%nat = false) by (apply Nat.leb_gt; lia).
      assert (E2 : (a <=? a)%nat = true) by (apply Nat.leb_le; lia).
      assert (E3 : (a <? a + S k)%nat = true) by (apply Nat.ltb_lt; lia).
      rewrite E1, E2, E3. reflexivity.
    + destruct (a <=? i)%nat eqn:E1.
      * apply Nat.leb_le in E1.
        assert (E2 : (S a <=? i)%nat = true) by (apply Nat.leb_le; lia).
        rewrite E2. simpl.
        replace (a + S k)%nat with (S (a + k)) by lia. reflexivity.
      * apply Nat.leb_gt in E1.
        assert (E2 : (S a <=? i)%nat = false) by (apply Nat.leb_gt; lia).
        rewrite E2. reflexivity.
Qed.

Lemma length_convert_fold l :
  forall adj, length (fold_left convert_step l adj) = length adj.
Proof.
  induction l as [|a l IH]; intros adj; simpl; [reflexivity|].
  rewrite IH. unfold convert_step. apply length_insert.
Qed.

Lemma with_lowmem_adj_same s : with_lowmem_adj s (lowmem_adj s) = s.
Proof. destruct s. reflexivity. Qed.

(** C10, as the code has it: the conversion sends the legacy maximum
    [OOM_ADJUST_MAX] to [OOM_SCORE_ADJ_MAX] and any other entry [old] to
    [old * OOM_SCORE_ADJ_MAX / -OOM_DISABLE] (quotient truncated towards
    zero, stored as a short). It is applied, to the first [n] entries where
    [n] is the configured length clamped to six, exactly when [n] is positive,
    the last of these entries is at most [OOM_ADJUST_MAX] and its converted
    value exceeds [OOM_ADJUST_MAX]; for a last entry in the legacy range that
    is when it lies between 1 and [OOM_ADJUST_MAX]. Otherwise the state is
    unchanged. *)
Theorem autodetect_rescales_legacy_table (s : lmk_state) :
  let n := adj_array_size s in
  let last := aget (lowmem_adj s) (Z.to_nat (n - 1)) in
  let rescaled (old : Z) := to_short (lowmem_oom_adj_to_oom_score_adj old) in
  let applies :=
    0 < n /\ last <= OOM_ADJUST_MAX /\ OOM_ADJUST_MAX < rescaled last in
  lowmem_oom_adj_to_oom_score_adj OOM_ADJUST_MAX = OOM_SCORE_ADJ_MAX
  /\ (forall old, old <> OOM_ADJUST_MAX -> SHRT_MIN <= old <= SHRT_MAX ->
        lowmem_oom_adj_to_oom_score_adj old
        = Z.quot (old * OOM_SCORE_ADJ_MAX) (- OOM_DISABLE))
  /\ (applies ->
        (forall i, aget (lowmem_adj (lowmem_autodetect_oom_adj_values s)) i
                   = if Z.of_nat i <? n then rescaled (aget (lowmem_adj s) i)
                     else aget (lowmem_adj s) i)
        /\ length (lowmem_adj (lowmem_autodetect_oom_adj_values s))
           = length (lowmem_adj s)
        /\ lowmem_autodetect_oom_adj_values s
           = with_lowmem_adj s (lowmem_adj (lowmem_autodetect_oom_adj_values s)))
  /\ (~ applies -> lowmem_autodetect_oom_adj_values s = s)
  /\ (OOM_DISABLE <= last <= OOM_ADJUST_MAX ->
        (OOM_ADJUST_MAX < rescaled last <-> 1 <= last)).
Proof.
  cbv zeta. split; [apply oom_adj_conversion_max|].
  split; [apply oom_adj_conversion_linear|].
  unfold lowmem_autodetect_oom_adj_values.
  set (n := adj_array_size s).
  set (last := aget (lowmem_adj s) (Z.to_nat (n - 1))).
  split; [|split].
  - intros (Hn & Hlast & Hres).
    assert (E1 : (n <=? 0) = false) by (apply Z.leb_gt; exact Hn).
    assert (E2 : (last >? OOM_ADJUST_MAX) = false).
    { rewrite Z.gtb_ltb. apply Z.ltb_ge. exact Hlast. }
    assert (E3 : (to_short (lowmem_oom_adj_to_oom_score_adj last)
                  <=? OOM_ADJUST_MAX) = false) by (apply Z.leb_gt; exact Hres).
    rewrite E1, E2, E3. simpl lowmem_adj. split; [|split].
    + intros i. rewrite aget_convert_fold. simpl.
      replace (i <? Z.to_nat n)%nat with (Z.of_nat i <? n); [reflexivity|].
      destruct (Z.of_nat i <? n) eqn:E.
      * apply Z.ltb_lt in E. symmetry. apply Nat.ltb_lt. lia.
      * apply Z.ltb_ge in E. symmetry. apply Nat.ltb_ge. lia.
    + apply length_convert_fold.
    + reflexivity.
  - intros Hno.
    destruct (n <=? 0) eqn:E1; [reflexivity|]. apply Z.leb_gt in E1.
    destruct (last >? OOM_ADJUST_MAX) eqn:E2; [reflexivity|].
    rewrite Z.gtb_ltb in E2. apply Z.ltb_ge in E2.
    destruct (to_short (lowmem_oom_adj_to_oom_score_adj last) <=? OOM_ADJUST_MAX)
      eqn:E3; [reflexivity|].
    apply Z.leb_gt in E3. exfalso. apply Hno. repeat split; assumption.
  - intros Hr. unfold OOM_DISABLE, OOM_ADJUST_MAX in *.
    destruct (Z.eq_dec last 15) as [E | Hne].
    + rewrite E. vm_compute. split; [intros _; discriminate | reflexivity].
    + rewrite oom_adj_conversion_linear
        by (unfold OOM_ADJUST_MAX, SHRT_MIN, SHRT_MAX; lia).
      unfold OOM_SCORE_ADJ_MAX, OOM_DISABLE. change (- -17) with 17.
      pose proof (quot_17_bounds (last * 1000)) as Hq. cbv zeta in Hq.
      rewrite to_short_id by (unfold SHRT_MIN, SHRT_MAX; lia).
      lia.
Qed.

Lemma autodetect_rescales_legacy_table_witness :
  lowmem_adj (lowmem_autodetect_oom_adj_values four_scores)
  = [0; 58; 352; 705; 16; 17]
  /\ aget (lowmem_adj (lowmem_autodetect_oom_adj_values four_scores)) 3 = 705
  /\ lowmem_autodetect_oom_adj_values lmk_init = lmk_init.
Proof.
  destruct (autodetect_rescales_legacy_table four_scores)
    as (_ & _ & H1 & _ & _).
  destruct (autodetect_rescales_legacy_table lmk_init)
    as (_ & _ & _ & H2 & _).
  split; [reflexivity|]. split.
  - destruct H1 as (H1 & _).
    + vm_compute. repeat split; discriminate.
    + rewrite (H1 3%nat). reflexivity.
  - apply H2. vm_compute. intros (_ & H & _). apply H. reflexivity.
Defined.

(** C10 as worded fails: with four cutoff scores configured the last entry
    is 12, not the legacy maximum 15, and the table is rescaled all the
    same. *)
Lemma rescale_applies_below_legacy_maximum :
  ~ spec_rescale_applies four_scores
  /\ aget (lowmem_adj four_scores) (Z.to_nat (adj_array_size four_scores - 1)) = 12
  /\ lowmem_autodetect_oom_adj_values four_scores <> four_scores
  /\ lowmem_adj (lowmem_autodetect_oom_adj_values four_scores)
     = [0; 58; 352; 705; 16; 17].
Proof.
  split; [vm_compute; discriminate|].
  split; [reflexivity|]. split; [|reflexivity].
  vm_compute. discriminate.
Qed.

(* ================================================================== *)
(** * Further properties of the shrinker *)

(** ** The processes killed are the best ones *)

Lemma pool_dominates_rest c tasks st x y :
  sel_inv c tasks st -> In x tasks -> eligible c x ->
  ~ In (Some x) (selected st) -> In (Some y) (selected st) ->
  ~ dominates x y.
Proof.
  intros I Hx He Hout Hy.
  destruct (Nat.lt_ge_cases (all_selected_oom st) LOWMEM_DEATHPENDING_DEPTH)
    as [Hlt | Hge].
  - exfalso. apply Hout. apply slot_In.
    exact (inv_partial _ _ _ I Hlt x Hx He).
  - assert (Hn : all_selected_oom st = LOWMEM_DEATHPENDING_DEPTH).
    { rewrite (inv_count _ _ _ I) in *. lia. }
    destruct (inv_full _ _ _ I Hn) as (F1 & F2 & F3).
    destruct (F3 x Hx He) as [Hin | Hle].
    + exfalso. apply Hout. apply slot_In. exact Hin.
    + apply slot_In in Hy. destruct Hy as [i Hi].
      destruct (inv_slot _ _ _ I _ _ Hi) as (_ & _ & Hk).
      assert (HiK : (i < LOWMEM_DEATHPENDING_DEPTH)%nat).
      { destruct (Nat.lt_ge_cases i LOWMEM_DEATHPENDING_DEPTH) as [H | H];
          [exact H|].
        exfalso. unfold slot in Hi.
        rewrite lookup_ge_None_2 in Hi
          by (rewrite (inv_len_sel _ _ _ I); exact H).
        discriminate. }
      rewrite dominates_not_lexle. intros Hnot. apply Hnot.
      rewrite <- Hk. eapply lexle_trans; [exact Hle | apply F2; exact HiK].
Qed.

(** What [lowmem_shrink] does when the scan runs to its end. *)
Lemma lowmem_shrink_scanned cfg s vm jiffies nr_to_scan tasks :
  0 < nr_to_scan ->
  min_score_adj_of (active_tier cfg s vm) <> OOM_SCORE_ADJ_MAX + 1 ->
  (forall p, In p tasks ->
     death_pending jiffies (lowmem_deathpending_timeout s) p = false) ->
  exists st,
    sel_inv (min_score_adj_of (active_tier cfg s vm)) tasks st
    /\ lowmem_shrink cfg s vm jiffies nr_to_scan tasks
       = kill_selected cfg jiffies st (to_int (reclaimable vm))
           (lowmem_deathpending_timeout s).
Proof.
  intros Hnr Hc Hpend. unfold lowmem_shrink.
  assert (E1 : (nr_to_scan <=? 0) = false) by (apply Z.leb_gt; exact Hnr).
  assert (E2 : (min_score_adj_of (active_tier cfg s vm) =? OOM_SCORE_ADJ_MAX + 1)
               = false) by (apply Z.eqb_neq; exact Hc).
  rewrite E1, E2. simpl orb. cbv iota.
  destruct (scan_completes jiffies (lowmem_deathpending_timeout s)
              (min_score_adj_of (active_tier cfg s vm)) tasks
              (selection_init (min_score_adj_of (active_tier cfg s vm))) Hpend)
    as [st Hst].
  rewrite Hst. exists st. split; [|reflexivity].
  apply scan_from_init in Hst. exact Hst.
Qed.

(** X1: the processes killed by a pass are the best of the list: a process
    that passed the filters and was not killed beats none of the killed
    ones (it has a lower score, or the same score and no more resident
    pages). *)
Theorem killed_are_the_best
    (cfg : kconfig) (s : lmk_state) (vm : vm_stat) (jiffies nr_to_scan : Z)
    (tasks : list task_struct) (x y : task_struct) :
  In y (killed (lowmem_shrink cfg s vm jiffies nr_to_scan tasks)) ->
  In x tasks ->
  PF_KTHREAD x = false ->
  min_score_adj_of (active_tier cfg s vm) <= oom_score_adj x ->
  0 < resident_pages x ->
  ~ In x (killed (lowmem_shrink cfg s vm jiffies nr_to_scan tasks)) ->
  oom_score_adj x < oom_score_adj y
  \/ (oom_score_adj x = oom_score_adj y
      /\ resident_pages x <= resident_pages y).
Proof.
  intros Hy Hx Hk Hc Hr Hout.
  assert (He : eligible (min_score_adj_of (active_tier cfg s vm)) x)
    by (repeat split; assumption).
  revert Hy Hout. unfold lowmem_shrink.
  destruct ((nr_to_scan <=? 0)
            || (min_score_adj_of (active_tier cfg s vm) =? OOM_SCORE_ADJ_MAX + 1));
    [intros []|].
  destruct (scan jiffies (lowmem_deathpending_timeout s)
              (min_score_adj_of (active_tier cfg s vm)) tasks
              (selection_init (min_score_adj_of (active_tier cfg s vm))))
    as [st|] eqn:E; [|intros []].
  apply scan_from_init in E. intros Hy Hout.
  rewrite (killed_slot _ _ _ _ _ _ _ y E) in Hy.
  rewrite (killed_slot _ _ _ _ _ _ _ x E) in Hout.
  pose proof (pool_dominates_rest _ _ _ _ _ E Hx He Hout Hy) as Hnd.
  unfold dominates in Hnd. lia.
Qed.

Lemma killed_are_the_best_witness :
  oom_score_adj (user_task 2 5 50) < oom_score_adj (user_task 3 8 10)
  \/ (oom_score_adj (user_task 2 5 50) = oom_score_adj (user_task 3 8 10)
      /\ resident_pages (user_task 2 5 50) <= resident_pages (user_task 3 8 10)).
Proof.
  apply (killed_are_the_best build_default lmk_init (vm_sample 100 100) 500 128
           scenario_tasks (user_task 2 5 50) (user_task 3 8 10)).
  - vm_compute. tauto.
  - simpl. tauto.
  - reflexivity.
  - vm_compute. discriminate.
  - reflexivity.
  - vm_compute. intros [H | [H | [H | []]]]; discriminate.
Defined.

(** ** The value returned and the deadline *)

Lemma to_signed_congr w a b :
  to_signed w (a mod 2 ^ w - b mod 2 ^ w) = to_signed w (a - b).
Proof.
  unfold to_signed. f_equal.
  destruct (Z.eq_dec (2 ^ w) 0) as [E | E].
  - rewrite E, !Z.mod_0_r. reflexivity.
  - rewrite (Z.mod_eq a (2 ^ w)), (Z.mod_eq b (2 ^ w)) by exact E.
    replace (a - 2 ^ w * (a / 2 ^ w) - (b - 2 ^ w * (b / 2 ^ w)) + 2 ^ (w - 1))
      with (a - b + 2 ^ (w - 1) + (b / 2 ^ w - a / 2 ^ w) * 2 ^ w) by ring.
    apply Z_mod_plus_full.
Qed.

Lemma to_signed_sub_idemp w a b :
  to_signed w (to_signed w a - b) = to_signed w (a - b).
Proof.
  unfold to_signed. f_equal.
  replace ((a + 2 ^ (w - 1)) mod 2 ^ w - 2 ^ (w - 1) - b + 2 ^ (w - 1))
    with ((a + 2 ^ (w - 1)) mod 2 ^ w - b) by ring.
  replace (a - b + 2 ^ (w - 1)) with (a + 2 ^ (w - 1) - b) by ring.
  apply Zminus_mod_idemp_l.
Qed.

Lemma to_int_sub_idemp a b : to_int (to_int a - b) = to_int (a - b).
Proof. apply to_signed_sub_idemp. Qed.

Lemma sel_inv_sizes_match c seen st : sel_inv c seen st -> sizes_match st.
Proof.
  intros I i p Hi. destruct (inv_slot _ _ _ I _ _ Hi) as (_ & _ & Hk).
  unfold slot_key, key_at, task_key in Hk. congruence.
Qed.

Lemma kill_fold_ret cfg jiffies st l :
  sizes_match st ->
  forall acc r0,
    ret acc = to_int r0 ->
    ret (fold_left (kill_step cfg jiffies st) l acc)
    = to_int (r0 - sum_resident
                     (flat_map (fun i => option_list (slot (selected st) i)) l)).
Proof.
  intros Hm. induction l as [|i l IH]; intros acc r0 Hr; simpl.
  - rewrite Z.sub_0_r. exact Hr.
  - unfold kill_step at 2.
    destruct (slot (selected st) i) as [p|] eqn:E; simpl.
    + rewrite (IH _ (r0 - resident_pages p)).
      * f_equal. lia.
      * simpl. rewrite Hr, (Hm _ _ E). apply to_int_sub_idemp.
    + apply IH. exact Hr.
Qed.


Lemma deadline_by_kills cfg s vm jiffies nr_to_scan tasks :
  deathpending_timeout (lowmem_shrink cfg s vm jiffies nr_to_scan tasks)
  = match killed (lowmem_shrink cfg s vm jiffies nr_to_scan tasks) with
    | [] => lowmem_deathpending_timeout s
    | _ :: _ => to_ulong (jiffies + HZ cfg)
    end.
Proof.
  unfold lowmem_shrink.
  destruct ((nr_to_scan <=? 0)
            || (min_score_adj_of (active_tier cfg s vm) =? OOM_SCORE_ADJ_MAX + 1));
    [reflexivity|].
  destruct (scan _ _ _ _ _) as [st|]; [|reflexivity].
  rewrite kill_selected_killed. unfold kill_selected.
  rewrite kill_fold_timeout. reflexivity.
Qed.

(** X3: a pass leaves [lowmem_deathpending_timeout] alone when it kills
    nothing and sets it to [jiffies + HZ] when it kills something. *)
Theorem lowmem_shrink_deadline
    (cfg : kconfig) (s : lmk_state) (vm : vm_stat) (jiffies nr_to_scan : Z)
    (tasks : list task_struct) :
  (killed (lowmem_shrink cfg s vm jiffies nr_to_scan tasks) = [] ->
   deathpending_timeout (lowmem_shrink cfg s vm jiffies nr_to_scan tasks)
   = lowmem_deathpending_timeout s)
  /\ (killed (lowmem_shrink cfg s vm jiffies nr_to_scan tasks) <> [] ->
      deathpending_timeout (lowmem_shrink cfg s vm jiffies nr_to_scan tasks)
      = to_ulong (jiffies + HZ cfg)).
Proof.
  rewrite deadline_by_kills.
  destruct (killed (lowmem_shrink cfg s vm jiffies nr_to_scan tasks)).
  - split; [reflexivity|]. intros H. contradiction H. reflexivity.
  - split; [discriminate | reflexivity].
Qed.

(** ** The cooldown in ticks *)

Lemma time_before_eq_ticks j d hz :
  - 2 ^ 31 <= hz - d < 2 ^ 31 ->
  time_before_eq (to_ulong (j + d)) (to_ulong (j + hz)) = (d <=? hz).
Proof.
  intros H. unfold time_before_eq, time_after_eq, to_long, to_ulong.
  rewrite to_signed_congr.
  replace (j + hz - (j + d)) with (hz - d) by ring.
  rewrite to_signed_id by (unfold BITS_PER_LONG; simpl; lia).
  destruct (d <=? hz) eqn:E.
  - apply Z.leb_le in E. apply Z.leb_le. lia.
  - apply Z.leb_gt in E. apply Z.leb_gt. lia.
Qed.

(** X4: a process killed by a pass at tick [jiffies] that [d <= HZ] ticks
    later is still in the process list with its memory descriptor keeps the
    pass run at that tick from killing anything, also when the tick counter
    wraps around in between. *)
Theorem cooldown_blocks_next_pass
    (cfg : kconfig) (s : lmk_state) (vm : vm_stat) (jiffies nr_to_scan : Z)
    (tasks : list task_struct) (p : task_struct) (d : Z)
    (cfg' : kconfig) (vm' : vm_stat) (nr_to_scan' : Z)
    (tasks' : list task_struct) :
  let r := lowmem_shrink cfg s vm jiffies nr_to_scan tasks in
  In p (killed r) ->
  0 <= d <= HZ cfg ->
  HZ cfg < 2 ^ 31 ->
  In (set_memdie p) tasks' ->
  killed (lowmem_shrink cfg' (after_shrink s r) vm' (to_ulong (jiffies + d))
            nr_to_scan' tasks') = [].
Proof.
  intros r Hp Hd Hhz Hin. subst r.
  eapply next_pass_within_cooldown_kills_nothing; [exact Hp | exact Hin |].
  rewrite time_before_eq_ticks by lia. apply Z.leb_le. lia.
Qed.

Lemma cooldown_blocks_next_pass_witness :
  killed (lowmem_shrink build_default
            (after_shrink lmk_init
               (lowmem_shrink build_default lmk_init (vm_sample 100 100)
                  4294967200 128 scenario_tasks))
            (vm_sample 100 100) (to_ulong (4294967200 + 150)) 128
            (set_memdie (user_task 5 9 5) :: scenario_tasks)) = [].
Proof.
  apply (cooldown_blocks_next_pass build_default lmk_init (vm_sample 100 100)
           4294967200 128 scenario_tasks (user_task 5 9 5) 150).
  - vm_compute. tauto.
  - simpl. lia.
  - simpl. lia.
  - simpl. tauto.
Defined.

(** X5: once more than [HZ] ticks have passed since the deadline was set,
    TIF_MEMDIE no longer stops a pass: with a breached tier and a positive
    budget it kills the minimum of three and the number of processes passing
    the filters, flagged or not. *)
Theorem cooldown_elapsed_pass_proceeds
    (cfg : kconfig) (s : lmk_state) (vm : vm_stat) (j0 d nr_to_scan : Z)
    (tasks : list task_struct) :
  lowmem_deathpending_timeout s = to_ulong (j0 + HZ cfg) ->
  HZ cfg < d ->
  d - HZ cfg <= 2 ^ 31 ->
  0 < nr_to_scan ->
  min_score_adj_of (active_tier cfg s vm) <> OOM_SCORE_ADJ_MAX + 1 ->
  length (killed (lowmem_shrink cfg s vm (to_ulong (j0 + d)) nr_to_scan tasks))
  = Nat.min LOWMEM_DEATHPENDING_DEPTH
      (eligible_count (min_score_adj_of (active_tier cfg s vm)) tasks).
Proof.
  intros Ht Hd Hr Hnr Hc.
  destruct (lowmem_shrink_scanned cfg s vm (to_ulong (j0 + d)) nr_to_scan tasks
              Hnr Hc) as (st & I & E).
  - intros p _. unfold death_pending.
    rewrite Ht, time_before_eq_ticks by lia.
    assert (E : (d <=? HZ cfg) = false) by (apply Z.leb_gt; exact Hd).
    rewrite E. apply andb_false_r.
  - rewrite E. eapply killed_length. exact I.
Qed.

Lemma cooldown_elapsed_pass_proceeds_witness :
  length (killed (lowmem_shrink build_default lmk_pending (vm_sample 100 100)
                    (to_ulong (400 + 201)) 128
                    (dying_victim :: scenario_tasks))) = 3%nat.
Proof.
  apply (cooldown_elapsed_pass_proceeds build_default lmk_pending
           (vm_sample 100 100) 400 201 128 (dying_victim :: scenario_tasks)).
  - reflexivity.
  - simpl. lia.
  - simpl. lia.
  - lia.
  - vm_compute. discriminate.
Defined.

(** ** No process is killed twice *)

Lemma select_task_selected st p adj size :
  selected (select_task st p adj size) = selected st
  \/ exists idx, (idx < length (selected st))%nat
       /\ selected (select_task st p adj size) = <[idx := Some p]> (selected st).
Proof.
  assert (H : forall idx,
             <[idx := Some p]> (selected st) = selected st
             \/ exists idx', (idx' < length (selected st))%nat
                  /\ <[idx := Some p]> (selected st)
                     = <[idx' := Some p]> (selected st)).
  { intros idx.
    destruct (Nat.lt_ge_cases idx (length (selected st))) as [Hlt | Hge].
    - right. exists idx. split; [exact Hlt | reflexivity].
    - left. apply list_insert_ge. exact Hge. }
  unfold select_task.
  destruct (all_selected_oom st <? LOWMEM_DEATHPENDING_DEPTH)%nat.
  - destruct (first_free_slot (selected st)) as [i|]; simpl; [apply H | left; reflexivity].
  - destruct (_ || _); simpl; [apply H | left; reflexivity].
Qed.

Lemma slots_distinct_insert sel idx p :
  slots_distinct sel ->
  (forall i, slot sel i <> Some p) ->
  (idx < length sel)%nat ->
  slots_distinct (<[idx := Some p]> sel).
Proof.
  intros Hd Hnew Hidx i j q. rewrite !slot_insert by exact Hidx.
  destruct (Nat.eq_dec i idx) as [->|Hi], (Nat.eq_dec j idx) as [->|Hj].
  - reflexivity.
  - intros [= <-] H. exfalso. exact (Hnew j H).
  - intros H [= <-]. exfalso. exact (Hnew i H).
  - apply Hd.
Qed.

Lemma scan_distinct jiffies timeout c tasks :
  forall seen st st',
    sel_inv c seen st ->
    slots_distinct (selected st) ->
    List.NoDup (seen ++ tasks) ->
    scan jiffies timeout c tasks st = Some st' ->
    slots_distinct (selected st').
Proof.
  induction tasks as [|t tasks IH]; intros seen st st' I Hd Hnd H; simpl in H.
  - injection H as <-. exact Hd.
  - destruct (scan_task jiffies timeout c st t) as [st1|] eqn:E; [|discriminate].
    assert (I1 : sel_inv c (seen ++ [t]) st1) by (eapply scan_task_inv; eassumption).
    assert (Hnd1 : List.NoDup ((seen ++ [t]) ++ tasks))
      by (rewrite <- app_assoc; exact Hnd).
    apply (IH _ _ _ I1); [|exact Hnd1 | exact H].
    apply scan_task_some in E. destruct E as [[_ ->] | [_ ->]]; [exact Hd|].
    destruct (select_task_selected st t (oom_score_adj t) (resident_pages t))
      as [-> | (idx & Hidx & ->)]; [exact Hd|].
    apply slots_distinct_insert; [exact Hd | | exact Hidx].
    intros i Hi. destruct (inv_slot _ _ _ I _ _ Hi) as (Hin & _).
    apply List.NoDup_remove_2 in Hnd. apply Hnd. apply in_or_app. left. exact Hin.
Qed.

Lemma slots_distinct_init c : slots_distinct (selected (selection_init c)).
Proof.
  intros i j p H. simpl in H. destruct i as [|[|[|i]]]; discriminate.
Qed.

Lemma NoDup_slots sel l :
  slots_distinct sel -> List.NoDup l ->
  List.NoDup (flat_map (fun i => option_list (slot sel i)) l).
Proof.
  intros Hd. induction l as [|i l IH]; intros Hl; simpl; [constructor|].
  inversion Hl as [|? ? Hi Hl']; subst.
  destruct (slot sel i) as [p|] eqn:E; simpl; [|apply IH; exact Hl'].
  constructor; [|apply IH; exact Hl'].
  rewrite in_flat_map. intros (j & Hj & Hp).
  destruct (slot sel j) as [q|] eqn:Ej; simpl in Hp; [|contradiction].
  destruct Hp as [-> | []].
  assert (i = j) by (eapply Hd; eassumption). subst. contradiction.
Qed.

(** X6: when the process list holds every process once, no process is
    killed twice in a pass. *)
Theorem no_process_killed_twice
    (cfg : kconfig) (s : lmk_state) (vm : vm_stat) (jiffies nr_to_scan : Z)
    (tasks : list task_struct) :
  List.NoDup tasks ->
  List.NoDup (killed (lowmem_shrink cfg s vm jiffies nr_to_scan tasks)).
Proof.
  intros Hnd. unfold lowmem_shrink.
  destruct ((nr_to_scan <=? 0)
            || (min_score_adj_of (active_tier cfg s vm) =? OOM_SCORE_ADJ_MAX + 1));
    [constructor|].
  destruct (scan jiffies (lowmem_deathpending_timeout s)
              (min_score_adj_of (active_tier cfg s vm)) tasks
              (selection_init (min_score_adj_of (active_tier cfg s vm))))
    as [st|] eqn:E; [|constructor].
  rewrite kill_selected_killed. apply NoDup_slots; [|apply List.seq_NoDup].
  eapply (scan_distinct _ _ _ tasks []); [apply sel_inv_init | | exact Hnd | exact E].
  apply slots_distinct_init.
Qed.

Lemma no_process_killed_twice_witness :
  List.NoDup (killed (lowmem_shrink build_default lmk_init (vm_sample 100 100)
                   500 128 scenario_tasks)).
Proof.
  apply no_process_killed_twice.
  unfold scenario_tasks.
  repeat (constructor; [simpl; intros H; repeat (destruct H as [H | H]; [discriminate H|]); exact H|]).
  constructor.
Defined.

(** ** More pressure, earlier tier *)

Lemma breached_mono cfg s vm vm' i :
  other_free vm' <= other_free vm -> other_file vm' <= other_file vm ->
  breached cfg s vm i -> breached cfg s vm' i.
Proof.
  unfold breached. destruct (CONFIG_VMWARE_MVP cfg); lia.
Qed.

(** X7: with fewer free pages and fewer file pages the evaluator still finds
    a tier, and not a later one: the index selected does not grow. *)
Theorem more_pressure_earlier_tier
    (cfg : kconfig) (s : lmk_state) (vm vm' : vm_stat) (t : tier) :
  active_tier cfg s vm = Some t ->
  other_free vm' <= other_free vm ->
  other_file vm' <= other_file vm ->
  exists t', active_tier cfg s vm' = Some t'
             /\ (tier_index t' <= tier_index t)%nat.
Proof.
  intros Ht Hf Hc.
  pose proof (active_tier_value cfg s vm) as H. rewrite Ht in H.
  destruct H as (H1 & H2 & _).
  pose proof (breached_mono cfg s vm vm' _ Hf Hc H2) as Hb.
  pose proof (active_tier_value cfg s vm') as H'.
  destruct (active_tier cfg s vm') as [t'|].
  - exists t'. split; [reflexivity|].
    destruct H' as (_ & _ & H3 & _).
    destruct (Nat.le_gt_cases (tier_index t') (tier_index t)) as [Hle | Hgt];
      [exact Hle|].
    exfalso. exact (H3 _ Hgt Hb).
  - exfalso. exact (H' _ H1 Hb).
Qed.

Lemma more_pressure_earlier_tier_witness :
  exists t', active_tier build_default lmk_init (vm_sample 100 100) = Some t'
             /\ (tier_index t' <= 3)%nat.
Proof.
  apply (more_pressure_earlier_tier build_default lmk_init
           (vm_sample 5000 5000) (vm_sample 100 100)
           {| tier_index := 3; tier_min_score_adj := 12;
              tier_target_free := to_int (5120 - 10000) |}).
  - reflexivity.
  - vm_compute. discriminate.
  - vm_compute. discriminate.
Defined.

(** X8: with the tables in ascending order, as the header comment asks for,
    the tier selected is the most severe one: its cutoff score is the lowest
    among the breached tiers (ascending [lowmem_adj]), and every later tier
    is breached as well (ascending [lowmem_minfree]). *)
Theorem first_breached_is_most_severe
    (cfg : kconfig) (s : lmk_state) (vm : vm_stat) (t : tier) :
  active_tier cfg s vm = Some t ->
  ((forall i j, (i <= j)%nat -> Z.of_nat j < array_size s ->
                aget (lowmem_adj s) i <= aget (lowmem_adj s) j) ->
   forall j, Z.of_nat j < array_size s -> breached cfg s vm j ->
             tier_min_score_adj t <= aget (lowmem_adj s) j)
  /\ ((forall i j, (i <= j)%nat -> Z.of_nat j < array_size s ->
                   aget (lowmem_minfree s) i <= aget (lowmem_minfree s) j) ->
      forall j, (tier_index t <= j)%nat -> Z.of_nat j < array_size s ->
                breached cfg s vm j).
Proof.
  intros Ht.
  pose proof (active_tier_value cfg s vm) as H. rewrite Ht in H.
  destruct H as (H1 & H2 & H3 & H4). split.
  - intros Hasc j Hj Hb. rewrite H4. apply Hasc; [|exact Hj].
    destruct (Nat.le_gt_cases (tier_index t) j) as [Hle | Hgt]; [exact Hle|].
    exfalso. exact (H3 _ Hgt Hb).
  - intros Hasc j Hle Hj. specialize (Hasc _ _ Hle Hj).
    revert H2. unfold breached. destruct (CONFIG_VMWARE_MVP cfg); lia.
Qed.

Lemma first_breached_is_most_severe_witness :
  breached build_default lmk_init (vm_sample 5000 5000) 4.
Proof.
  destruct (first_breached_is_most_severe build_default lmk_init
              (vm_sample 5000 5000)
              {| tier_index := 3; tier_min_score_adj := 12;
                 tier_target_free := to_int (5120 - 10000) |} eq_refl)
    as [_ H].
  apply H; [|simpl; lia | vm_compute; reflexivity].
  intros i j Hij Hj.
  change (array_size lmk_init) with 6 in Hj.
  destruct j as [|[|[|[|[|[|j]]]]]]; [| | | | | |lia];
    do 6 (try (destruct i as [|i]; [vm_compute; discriminate|])); lia.
Defined.

(* ================================================================== *)
(** * Further properties of the oom_adj auto-detection *)

Lemma adj_array_size_with s adj :
  adj_array_size (with_lowmem_adj s adj) = adj_array_size s.
Proof. reflexivity. Qed.

(** The two outcomes of the auto-detection. *)
Lemma autodetect_cases s :
  lowmem_autodetect_oom_adj_values s = s
  \/ (0 < adj_array_size s
      /\ OOM_ADJUST_MAX
         < to_short (lowmem_oom_adj_to_oom_score_adj
                       (aget (lowmem_adj s) (Z.to_nat (adj_array_size s - 1))))
      /\ lowmem_autodetect_oom_adj_values s
         = with_lowmem_adj s
             (fold_left convert_step (seq 0 (Z.to_nat (adj_array_size s)))
                (lowmem_adj s))).
Proof.
  unfold lowmem_autodetect_oom_adj_values.
  destruct (adj_array_size s <=? 0) eqn:E1; [left; reflexivity|].
  destruct (_ >? OOM_ADJUST_MAX); [left; reflexivity|].
  destruct (_ <=? OOM_ADJUST_MAX) eqn:E3; [left; reflexivity|].
  right. apply Z.leb_gt in E1. apply Z.leb_gt in E3. repeat split; assumption.
Qed.

(** X9: the auto-detection is a one-time operation: applied to its own
    result it changes nothing, because a rescaled table ends above the
    legacy maximum. *)
Theorem autodetect_idempotent (s : lmk_state) :
  lowmem_autodetect_oom_adj_values (lowmem_autodetect_oom_adj_values s)
  = lowmem_autodetect_oom_adj_values s.
Proof.
  destruct (autodetect_cases s) as [E | (Hn & Hres & E)].
  - rewrite E. exact E.
  - rewrite E.
    set (adj' := fold_left convert_step (seq 0 (Z.to_nat (adj_array_size s)))
                   (lowmem_adj s)).
    unfold lowmem_autodetect_oom_adj_values at 1.
    rewrite adj_array_size_with.
    assert (E1 : (adj_array_size s <=? 0) = false) by (apply Z.leb_gt; exact Hn).
    rewrite E1. cbn [lowmem_adj with_lowmem_adj].
    assert (Hlast : aget adj' (Z.to_nat (adj_array_size s - 1))
                    = to_short (lowmem_oom_adj_to_oom_score_adj
                        (aget (lowmem_adj s) (Z.to_nat (adj_array_size s - 1))))).
    { unfold adj'. rewrite aget_convert_fold.
      assert (Hb : (0 <=? Z.to_nat (adj_array_size s - 1))%nat
                   && (Z.to_nat (adj_array_size s - 1)
                       <? 0 + Z.to_nat (adj_array_size s))%nat = true).
      { apply andb_true_iff. split; [apply Nat.leb_le | apply Nat.ltb_lt]; lia. }
      rewrite Hb. reflexivity. }
    rewrite Hlast.
    assert (E2 : (to_short (lowmem_oom_adj_to_oom_score_adj
                    (aget (lowmem_adj s) (Z.to_nat (adj_array_size s - 1))))
                  >? OOM_ADJUST_MAX) = true).
    { rewrite Z.gtb_ltb. apply Z.ltb_lt. exact Hres. }
    rewrite E2. reflexivity.
Qed.

Lemma conversion_legacy_range x :
  OOM_DISABLE <= x <= OOM_ADJUST_MAX ->
  to_short (lowmem_oom_adj_to_oom_score_adj x)
  = lowmem_oom_adj_to_oom_score_adj x
  /\ - OOM_SCORE_ADJ_MAX <= lowmem_oom_adj_to_oom_score_adj x <= OOM_SCORE_ADJ_MAX
  /\ (x <> OOM_ADJUST_MAX ->
      17 * lowmem_oom_adj_to_oom_score_adj x - 16 <= x * 1000
      <= 17 * lowmem_oom_adj_to_oom_score_adj x + 16).
Proof.
  unfold OOM_DISABLE, OOM_ADJUST_MAX, OOM_SCORE_ADJ_MAX. intros Hr.
  destruct (Z.eq_dec x 15) as [-> | Hne].
  - split; [reflexivity|]. split; [vm_compute; split; discriminate|].
    intros H. exfalso. apply H. reflexivity.
  - rewrite oom_adj_conversion_linear
      by (unfold OOM_ADJUST_MAX, SHRT_MIN, SHRT_MAX; lia).
    unfold OOM_SCORE_ADJ_MAX, OOM_DISABLE. change (- -17) with 17.
    pose proof (quot_17_bounds (x * 1000)) as Hq. cbv zeta in Hq.
    rewrite to_short_id by (unfold SHRT_MIN, SHRT_MAX; lia).
    repeat split; lia.
Qed.

Lemma conversion_strictly_monotone x y :
  OOM_DISABLE <= x -> x < y -> y <= OOM_ADJUST_MAX ->
  lowmem_oom_adj_to_oom_score_adj x < lowmem_oom_adj_to_oom_score_adj y.
Proof.
  intros Hx Hxy Hy.
  destruct (conversion_legacy_range x) as (_ & Rx & Bx); [lia|].
  destruct (conversion_legacy_range y) as (_ & Ry & By); [lia|].
  unfold OOM_DISABLE, OOM_ADJUST_MAX, OOM_SCORE_ADJ_MAX in *.
  assert (Hx15 : x <> 15) by lia. specialize (Bx Hx15).
  destruct (Z.eq_dec y 15) as [-> | Hne].
  - change (lowmem_oom_adj_to_oom_score_adj 15) with 1000. lia.
  - specialize (By Hne). lia.
Qed.

(** X10: on a table whose configured entries lie in the legacy range from
    [OOM_DISABLE] to [OOM_ADJUST_MAX], the auto-detection keeps the order of
    the entries, strictly, and when it rescales, every configured entry lands
    between [-OOM_SCORE_ADJ_MAX] and [OOM_SCORE_ADJ_MAX]. *)
Theorem autodetect_keeps_order (s : lmk_state) :
  (forall i, Z.of_nat i < adj_array_size s ->
     OOM_DISABLE <= aget (lowmem_adj s) i <= OOM_ADJUST_MAX) ->
  let s' := lowmem_autodetect_oom_adj_values s in
  (forall i j, Z.of_nat i < adj_array_size s -> Z.of_nat j < adj_array_size s ->
     aget (lowmem_adj s) i < aget (lowmem_adj s) j ->
     aget (lowmem_adj s') i < aget (lowmem_adj s') j)
  /\ (forall i j, Z.of_nat i < adj_array_size s -> Z.of_nat j < adj_array_size s ->
        aget (lowmem_adj s) i <= aget (lowmem_adj s) j ->
        aget (lowmem_adj s') i <= aget (lowmem_adj s') j)
  /\ (s' <> s ->
      forall i, Z.of_nat i < adj_array_size s ->
        - OOM_SCORE_ADJ_MAX <= aget (lowmem_adj s') i <= OOM_SCORE_ADJ_MAX).
Proof.
  intros Hr. cbv zeta.
  destruct (autodetect_cases s) as [E | (Hn & Hres & E)].
  - rewrite E. split; [|split].
    + intros i j _ _ Hlt. exact Hlt.
    + intros i j _ _ Hle. exact Hle.
    + intros Hne. exfalso. apply Hne. reflexivity.
  - rewrite E. cbn [lowmem_adj with_lowmem_adj].
    assert (Hget : forall i, Z.of_nat i < adj_array_size s ->
              aget (fold_left convert_step (seq 0 (Z.to_nat (adj_array_size s)))
                      (lowmem_adj s)) i
              = lowmem_oom_adj_to_oom_score_adj (aget (lowmem_adj s) i)).
    { intros i Hi. rewrite aget_convert_fold.
      assert (Hb : (0 <=? i)%nat && (i <? 0 + Z.to_nat (adj_array_size s))%nat
                   = true).
      { apply andb_true_iff. split; [apply Nat.leb_le | apply Nat.ltb_lt]; lia. }
      rewrite Hb. apply conversion_legacy_range. apply Hr. exact Hi. }
    split; [|split].
    + intros i j Hi Hj Hlt. rewrite !Hget by assumption.
      apply conversion_strictly_monotone; [apply Hr; exact Hi | exact Hlt |].
      apply Hr. exact Hj.
    + intros i j Hi Hj Hle. rewrite !Hget by assumption.
      destruct (Z.eq_dec (aget (lowmem_adj s) i) (aget (lowmem_adj s) j))
        as [-> | Hne]; [lia|].
      apply Z.lt_le_incl.
      apply conversion_strictly_monotone; [apply Hr; exact Hi | lia |].
      apply Hr. exact Hj.
    + intros _ i Hi. rewrite Hget by exact Hi.
      apply conversion_legacy_range. apply Hr. exact Hi.
Qed.

Lemma autodetect_keeps_order_witness :
  aget (lowmem_adj (lowmem_autodetect_oom_adj_values four_scores)) 1
  < aget (lowmem_adj (lowmem_autodetect_oom_adj_values four_scores)) 2.
Proof.
  destruct (autodetect_keeps_order four_scores) as (H & _ & _).
  - intros i Hi. change (adj_array_size four_scores) with 4 in Hi.
    destruct i as [|[|[|[|i]]]]; [| | | |lia]; vm_compute; split; discriminate.
  - apply H; vm_compute; reflexivity.
Defined.

(* ================================================================== *)
(** * Further properties of the screen handlers *)

Lemma tier_loop_ext cfg s s' F C fuel :
  lowmem_adj s = lowmem_adj s' ->
  lowmem_adj_size s = lowmem_adj_size s' ->
  lowmem_minfree s = lowmem_minfree s' ->
  lowmem_minfree_size s = lowmem_minfree_size s' ->
  forall i, tier_loop cfg s F C fuel i = tier_loop cfg s' F C fuel i.
Proof.
  intros Ha Has Hm Hms.
  assert (Hsz : array_size s = array_size s').
  { unfold array_size. rewrite Has, Hms. reflexivity. }
  induction fuel as [|fuel IH]; intros i; simpl; [reflexivity|].
  rewrite Hsz, IH.
  unfold tier_test, read_minfree, read_adj. rewrite Ha, Hm. reflexivity.
Qed.

Lemma lowmem_shrink_ext cfg s s' vm jiffies nr_to_scan tasks :
  lowmem_adj s = lowmem_adj s' ->
  lowmem_adj_size s = lowmem_adj_size s' ->
  lowmem_minfree s = lowmem_minfree s' ->
  lowmem_minfree_size s = lowmem_minfree_size s' ->
  lowmem_deathpending_timeout s = lowmem_deathpending_timeout s' ->
  lowmem_shrink cfg s vm jiffies nr_to_scan tasks
  = lowmem_shrink cfg s' vm jiffies nr_to_scan tasks.
Proof.
  intros Ha Has Hm Hms Ht. unfold lowmem_shrink, active_tier, evaluate.
  rewrite (tier_loop_ext cfg s s' _ _ _ Ha Has Hm Hms), Ht. reflexivity.
Qed.

Lemma screen_cycle_iter n s :
  Nat.iter (S n) screen_cycle s = screen_cycle s.
Proof.
  induction n as [|n IH]; [reflexivity|].
  change (Nat.iter (S (S n)) screen_cycle s)
    with (screen_cycle (Nat.iter (S n) screen_cycle s)).
  rewrite IH. reflexivity.
Qed.

(** X11: any number of screen-off/screen-on cycles leaves the state as one
    cycle does: the active thresholds are the ones from before, only the
    backup [lowmem_minfree_screen_on] now holds them too, and the shrinker
    answers every call as it did before the cycles. *)
Theorem screen_cycles_are_transparent (n : nat) (s : lmk_state) :
  Nat.iter (S n) screen_cycle s = screen_cycle s
  /\ lowmem_minfree (Nat.iter n screen_cycle s) = lowmem_minfree s
  /\ lowmem_minfree_screen_on (Nat.iter (S n) screen_cycle s) = lowmem_minfree s
  /\ (forall cfg vm jiffies nr_to_scan tasks,
        lowmem_shrink cfg (Nat.iter n screen_cycle s) vm jiffies nr_to_scan tasks
        = lowmem_shrink cfg s vm jiffies nr_to_scan tasks).
Proof.
  split; [apply screen_cycle_iter|].
  destruct n as [|n].
  - split; [reflexivity|]. split; reflexivity.
  - rewrite !screen_cycle_iter.
    split; [reflexivity|]. split; [reflexivity|].
    intros cfg vm jiffies nr_to_scan tasks.
    apply lowmem_shrink_ext; reflexivity.
Qed.

(* ================================================================== *)
(** * Properties of the swap paths (CONFIG_ZRAM_FOR_ANDROID) *)

(** ** The free-memory bound computed at initialisation *)

Lemma high_wmark_fold zones :
  forall h,
    0 <= h < 2 ^ 32 ->
    (forall w, In w zones -> 0 <= w < 2 ^ 32) ->
    let r := fold_left high_wmark_step zones h in
    h <= r < 2 ^ 32
    /\ (forall w, In w zones -> w <= r)
    /\ (r = h \/ In r zones).
Proof.
  induction zones as [|w zones IH]; intros h Hh Hz; simpl.
  - split; [lia|]. split; [intros w []|]. left. reflexivity.
  - assert (Hw : 0 <= w < 2 ^ 32) by (apply Hz; left; reflexivity).
    assert (Hstep : high_wmark_step h w = Z.max h w).
    { unfold high_wmark_step, to_uint.
      destruct (h <? w) eqn:E.
      - apply Z.ltb_lt in E. rewrite Z.mod_small by lia. lia.
      - apply Z.ltb_ge in E. lia. }
    destruct (IH (high_wmark_step h w)) as (H1 & H2 & H3).
    + rewrite Hstep. lia.
    + intros w' Hw'. apply Hz. right. exact Hw'.
    + rewrite Hstep in *. split; [lia|]. split.
      * intros w' [<- | Hw']; [lia | apply H2; exact Hw'].
      * destruct H3 as [H3 | H3]; [|right; right; exact H3].
        destruct (Z.max_spec h w) as [[_ E] | [_ E]]; rewrite E in *.
        -- right. left. symmetry. exact H3.
        -- left. exact H3.
Qed.

(** X12: the free-memory bound [lowmem_init] computes is positive and at
    least the high watermark of every zone: it is the largest of them, or
    [CHECK_FREE_MEMORY] when all of them are zero or there is no zone. *)
Theorem check_free_memory_covers_watermarks (zones : list Z) :
  (forall w, In w zones -> 0 <= w < 2 ^ 32) ->
  let c := lowmem_init_check_free_memory zones in
  0 < c
  /\ (forall w, In w zones -> w <= c)
  /\ (In c zones \/ (c = CHECK_FREE_MEMORY /\ forall w, In w zones -> w = 0)).
Proof.
  intros Hz. cbv zeta. unfold lowmem_init_check_free_memory.
  destruct (high_wmark_fold zones 0) as (H1 & H2 & H3); [lia | exact Hz |].
  cbv zeta in H1, H2, H3.
  destruct (fold_left high_wmark_step zones 0 =? 0) eqn:E; simpl negb; cbv iota.
  - apply Z.eqb_eq in E. rewrite E in H2. unfold CHECK_FREE_MEMORY.
    split; [lia|]. split.
    + intros w Hw. specialize (H2 w Hw). lia.
    + right. split; [reflexivity|]. intros w Hw.
      specialize (H2 w Hw). specialize (Hz w Hw). lia.
  - apply Z.eqb_neq in E. split; [lia|]. split; [exact H2|].
    left. destruct H3 as [H3 | H3]; [contradiction | exact H3].
Qed.

Lemma check_free_memory_covers_watermarks_witness :
  0 < lowmem_init_check_free_memory [0; 1200; 800]
  /\ 1200 <= lowmem_init_check_free_memory [0; 1200; 800].
Proof.
  destruct (check_free_memory_covers_watermarks [0; 1200; 800]) as (H1 & H2 & _).
  - intros w [<- | [<- | [<- | []]]]; simpl; lia.
  - split; [exact H1 | apply H2; simpl; tauto].
Defined.

(** ** Which process a request swaps *)

Lemma find_first_passing {A} (P : A -> bool) (l : list A) (q : A) :
  List.find P l = Some q <-> first_passing P l q.
Proof.
  unfold first_passing. induction l as [|x l IH]; simpl.
  - split; [discriminate|]. intros (l1 & l2 & E & _). destruct l1; discriminate.
  - destruct (P x) eqn:Px.
    + split.
      * intros [= <-]. exists [], l. repeat split; [exact Px | intros y []].
      * intros (l1 & l2 & E & Hq & Hl1). destruct l1 as [|y l1].
        -- injection E as ->. reflexivity.
        -- injection E as <- _. rewrite (Hl1 x) in Px by (left; reflexivity).
           discriminate.
    + rewrite IH. split.
      * intros (l1 & l2 & -> & Hq & Hl1). exists (x :: l1), l2.
        repeat split; [exact Hq|]. intros y [<- | Hy]; [exact Px | apply Hl1, Hy].
      * intros (l1 & l2 & E & Hq & Hl1). destruct l1 as [|y l1].
        -- injection E as -> _. congruence.
        -- injection E as _ ->. exists l1, l2. repeat split; [exact Hq|].
           intros z Hz. apply Hl1. right. exact Hz.
Qed.


Lemma swap_inactive_loop_find procs :
  swap_inactive_loop procs = List.find inactive_candidate procs.
Proof.
  induction procs as [|tsk procs IH]; simpl; [reflexivity|].
  unfold inactive_candidate, find_lock_task_mm, resident_pages.
  destruct (sp_signal tsk) as [sig|];
    destruct (mm (sp_task tsk)) as [m|]; simpl; try exact IH.
  rewrite Z.leb_antisym, Z.geb_leb.
  destruct (0 <? get_mm_rss m); simpl; [|exact IH].
  destruct (hidden_min_oom_adj <=? oom_adj sig); [reflexivity | exact IH].
Qed.



(** X15: [swap_inactive_pagelist] hands to [shrink_pages] the first process
    of the list that has a memory descriptor with resident pages, a signal
    structure and an [oom_adj] of at least 9 (none if there is no such
    process), and the page count it returns is 0 in every case. *)
Theorem swap_inactive_pagelist_target (procs : list swap_proc) :
  fst (swap_inactive_pagelist procs) = 0
  /\ (forall q, snd (swap_inactive_pagelist procs) = Some q
                <-> first_passing inactive_candidate procs q)
  /\ (snd (swap_inactive_pagelist procs) = None
      <-> forall x, In x procs -> inactive_candidate x = false).
Proof.
  unfold swap_inactive_pagelist. simpl. rewrite swap_inactive_loop_find.
  split; [reflexivity|]. split.
  - intros q. apply find_first_passing.
  - split.
    + intros H x Hx. exact (find_none _ _ H x Hx).
    + intros H. destruct (List.find inactive_candidate procs) as [q|] eqn:E;
        [|reflexivity].
      apply find_some in E. destruct E as [Hin Hc].
      rewrite (H q Hin) in Hc. discriminate.
Qed.

(* ================================================================== *)
(** * The scan order does not matter *)

(** ** The slots as a list *)

Lemma flat_map_ext_in {A B} (f g : A -> list B) l :
  (forall x, In x l -> f x = g x) -> flat_map f l = flat_map g l.
Proof.
  induction l as [|x l IH]; intros H; simpl; [reflexivity|].
  rewrite (H x) by (left; reflexivity). f_equal.
  apply IH. intros y Hy. apply H. right. exact Hy.
Qed.

Lemma slots_list_insert sel idx p :
  (idx < LOWMEM_DEATHPENDING_DEPTH)%nat -> (idx < length sel)%nat ->
  exists A B,
    slots_list sel = A ++ option_list (slot sel idx) ++ B
    /\ slots_list (<[idx := Some p]> sel) = A ++ [p] ++ B.
Proof.
  intros HK Hlen. unfold slots_list.
  replace LOWMEM_DEATHPENDING_DEPTH
    with (idx + S (LOWMEM_DEATHPENDING_DEPTH - S idx))%nat by lia.
  rewrite seq_app. simpl seq.
  exists (flat_map (fun i => option_list (slot sel i)) (seq 0 idx)),
         (flat_map (fun i => option_list (slot sel i))
            (seq (S idx) (LOWMEM_DEATHPENDING_DEPTH - S idx))).
  split.
  - rewrite flat_map_app. reflexivity.
  - rewrite flat_map_app. simpl flat_map.
    rewrite slot_insert by exact Hlen.
    destruct (Nat.eq_dec idx idx) as [_|Hne]; [|contradiction].
    simpl option_list. f_equal; [|f_equal]; apply flat_map_ext_in;
      intros i Hi; apply in_seq in Hi; rewrite slot_insert by exact Hlen;
      destruct (Nat.eq_dec i idx); [lia | reflexivity | lia | reflexivity].
Qed.

Lemma in_slots_list c seen st y :
  sel_inv c seen st ->
  In y (slots_list (selected st)) <-> exists i, slot (selected st) i = Some y.
Proof.
  intros I. rewrite <- slot_In.
  rewrite <- (killed_slot c seen build_default 0 st 0 0 y I).
  rewrite kill_selected_killed. reflexivity.
Qed.

(** ** What a selection step does to the slots *)

Lemma select_task_shape c seen st p :
  sel_inv c seen st -> eligible c p ->
  let st' := select_task st p (oom_score_adj p) (resident_pages p) in
  ((all_selected_oom st < LOWMEM_DEATHPENDING_DEPTH)%nat
   /\ slot (selected st) (all_selected_oom st) = None
   /\ selected st' = <[all_selected_oom st := Some p]> (selected st)
   /\ all_selected_oom st' = S (all_selected_oom st))
  \/ (all_selected_oom st = LOWMEM_DEATHPENDING_DEPTH
      /\ ~ lexle (task_key p) (slot_key st (max_selected_oom_idx st))
      /\ selected st' = <[max_selected_oom_idx st := Some p]> (selected st)
      /\ all_selected_oom st' = all_selected_oom st)
  \/ (all_selected_oom st = LOWMEM_DEATHPENDING_DEPTH
      /\ lexle (task_key p) (slot_key st (max_selected_oom_idx st))
      /\ selected st' = selected st
      /\ all_selected_oom st' = all_selected_oom st).
Proof.
  intros I He. cbv zeta. unfold select_task.
  destruct (all_selected_oom st <? LOWMEM_DEATHPENDING_DEPTH)%nat eqn:Elt.
  - apply Nat.ltb_lt in Elt. left.
    rewrite (first_free_slot_prefix _ _ _ I Elt). sel_simpl.
    split; [exact Elt|]. split; [|split; reflexivity].
    pose proof (inv_prefix _ _ _ I _ Elt) as Hp.
    destruct (slot (selected st) (all_selected_oom st)); [|reflexivity].
    exfalso. assert (all_selected_oom st < all_selected_oom st)%nat;
      [apply Hp; discriminate | lia].
  - apply Nat.ltb_ge in Elt. right.
    assert (Hn : all_selected_oom st = LOWMEM_DEATHPENDING_DEPTH).
    { rewrite (inv_count _ _ _ I) in *. lia. }
    destruct ((aget (selected_oom_score_adj st) (max_selected_oom_idx st)
               <? oom_score_adj p)
              || (aget (selected_oom_score_adj st) (max_selected_oom_idx st)
                  =? oom_score_adj p)
                 && (aget (selected_tasksize st) (max_selected_oom_idx st)
                     <? resident_pages p)) eqn:Ecmp.
    + left. sel_simpl. split; [exact Hn|]. split; [|split; reflexivity].
      unfold lexle, task_key, slot_key, key_at. simpl.
      apply orb_true_iff in Ecmp. destruct Ecmp as [E | E].
      * apply Z.ltb_lt in E. lia.
      * apply andb_true_iff in E. destruct E as [E1 E2].
        apply Z.eqb_eq in E1. apply Z.ltb_lt in E2. lia.
    + right. sel_simpl. split; [exact Hn|]. split; [|split; reflexivity].
      unfold lexle, task_key, slot_key, key_at. simpl.
      apply orb_false_iff in Ecmp. destruct Ecmp as [E1 E2].
      apply Z.ltb_ge in E1. apply andb_false_iff in E2.
      destruct E2 as [E2 | E2].
      * apply Z.eqb_neq in E2. lia.
      * apply Z.ltb_ge in E2. lia.
Qed.

Lemma filter_snoc_keys c seen p :
  map task_key (List.filter (eligibleb c) (seen ++ [p]))
  = map task_key (List.filter (eligibleb c) seen)
    ++ (if eligibleb c p then [task_key p] else []).
Proof.
  rewrite List.filter_app, map_app. simpl.
  destruct (eligibleb c p); reflexivity.
Qed.

Lemma pool_split_select c seen st p :
  sel_inv c seen st -> pool_split c seen st -> eligible c p ->
  pool_split c (seen ++ [p])
    (select_task st p (oom_score_adj p) (resident_pages p)).
Proof.
  intros I (rest & HP & Hle & Hrest) He.
  assert (Hb : eligibleb c p = true) by (apply eligibleb_spec; exact He).
  pose proof (inv_len_sel _ _ _ I) as Hlen.
  unfold pool_split. rewrite filter_snoc_keys, Hb.
  destruct (select_task_shape c seen st p I He)
    as [(Hlt & Hfree & -> & ->) | [(Hn & Hdom & -> & ->) | (Hn & Hlex & -> & ->)]].
  - (* a free slot *)
    destruct (slots_list_insert (selected st) (all_selected_oom st) p Hlt)
      as (A & B & EA & EB); [lia|].
    rewrite Hfree in EA. simpl in EA. rewrite (Hrest Hlt) in *.
    exists []. split; [|split].
    + rewrite HP, EA, EB, !map_app. simpl. solve_Permutation.
    + intros r y [].
    + reflexivity.
  - (* the weakest entry gives way *)
    destruct (inv_full _ _ _ I Hn) as (F1 & F2 & F3).
    destruct (slots_list_insert (selected st) (max_selected_oom_idx st) p F1)
      as (A & B & EA & EB); [lia|].
    destruct (slot (selected st) (max_selected_oom_idx st)) as [w|] eqn:Ew.
    2:{ exfalso. apply (inv_prefix _ _ _ I _ F1); [lia | exact Ew]. }
    destruct (inv_slot _ _ _ I _ _ Ew) as (_ & _ & Hkw).
    simpl in EA.
    assert (Hweak : forall y, In y (map task_key (slots_list (selected st))) ->
                      lexle (task_key w) y).
    { intros y Hy. apply in_map_iff in Hy. destruct Hy as (q & <- & Hq).
      apply (in_slots_list _ _ _ _ I) in Hq. destruct Hq as [i Hi].
      destruct (inv_slot _ _ _ I _ _ Hi) as (_ & _ & Hk).
      rewrite <- Hk, <- Hkw. apply F2.
      destruct (Nat.lt_ge_cases i LOWMEM_DEATHPENDING_DEPTH) as [H | H];
        [exact H|].
      exfalso. unfold slot in Hi. rewrite lookup_ge_None_2 in Hi by lia.
      discriminate. }
    assert (Hpw : lexle (task_key w) (task_key p)).
    { rewrite Hkw in Hdom. destruct (lexle_total (task_key w) (task_key p));
        [assumption | contradiction]. }
    exists (task_key w :: rest). split; [|split].
    + rewrite HP, EA, EB, !map_app. simpl. solve_Permutation.
    + intros r y Hr Hy. rewrite EB, !map_app in Hy. simpl in Hy.
      assert (Hy' : y = task_key p
                    \/ In y (map task_key (slots_list (selected st)))).
      { rewrite EA, !map_app. simpl.
        rewrite !in_app_iff in *. simpl in *.
        destruct Hy as [Hy | [Hy | Hy]]; [tauto | left; symmetry; exact Hy | tauto]. }
      assert (Hrw : lexle r (task_key w)).
      { destruct Hr as [<- | Hr]; [apply lexle_refl|].
        apply Hle; [exact Hr|]. rewrite EA, !map_app. simpl.
        rewrite !in_app_iff. simpl. tauto. }
      destruct Hy' as [-> | Hy'].
      * eapply lexle_trans; eassumption.
      * eapply lexle_trans; [exact Hrw | apply Hweak; exact Hy'].
    + intros Hlt. lia.
  - (* no change *)
    destruct (inv_full _ _ _ I Hn) as (F1 & F2 & F3).
    exists (task_key p :: rest). split; [|split].
    + rewrite HP. solve_Permutation.
    + intros r y [<- | Hr] Hy; [|apply Hle; assumption].
      apply in_map_iff in Hy. destruct Hy as (q & <- & Hq).
      apply (in_slots_list _ _ _ _ I) in Hq. destruct Hq as [i Hi].
      destruct (inv_slot _ _ _ I _ _ Hi) as (_ & _ & Hk).
      rewrite <- Hk. eapply lexle_trans; [exact Hlex|]. apply F2.
      destruct (Nat.lt_ge_cases i LOWMEM_DEATHPENDING_DEPTH) as [H | H];
        [exact H|].
      exfalso. unfold slot in Hi. rewrite lookup_ge_None_2 in Hi by lia.
      discriminate.
    + intros Hlt. lia.
Qed.

Lemma pool_split_init c : pool_split c [] (selection_init c).
Proof.
  exists []. split; [reflexivity|]. split; [intros r y []|reflexivity].
Qed.

Lemma pool_split_scan jiffies timeout c tasks :
  forall seen st st',
    sel_inv c seen st -> pool_split c seen st ->
    scan jiffies timeout c tasks st = Some st' ->
    pool_split c (seen ++ tasks) st'.
Proof.
  induction tasks as [|t tasks IH]; intros seen st st' I Q H; simpl in H.
  - injection H as <-. rewrite app_nil_r. exact Q.
  - destruct (scan_task jiffies timeout c st t) as [st1|] eqn:E; [|discriminate].
    replace (seen ++ t :: tasks) with ((seen ++ [t]) ++ tasks)
      by (rewrite <- app_assoc; reflexivity).
    apply (IH _ st1); [eapply scan_task_inv; eassumption | | exact H].
    apply scan_task_some in E. destruct E as [[Hne ->] | [He ->]].
    + destruct Q as (rest & HP & Hle & Hrest). exists rest.
      rewrite filter_snoc_keys.
      assert (Hb : eligibleb c t = false).
      { destruct (eligibleb c t) eqn:Eb; [|reflexivity].
        apply eligibleb_spec in Eb. contradiction. }
      rewrite Hb, app_nil_r. repeat split; assumption.
    + apply pool_split_select; assumption.
Qed.

(** ** The best entries of a list are determined by the list *)

Lemma keyge_trans : Transitive keyge.
Proof. intros a b c. unfold keyge. intros H1 H2. eapply lexle_trans; eassumption. Qed.

Lemma keyge_total : Total keyge.
Proof. intros a b. unfold keyge. apply lexle_total. Qed.

Lemma keyge_antisym : AntiSymm (=) keyge.
Proof.
  intros [a1 a2] [b1 b2]. unfold keyge, lexle. simpl. intros H1 H2.
  f_equal; lia.
Qed.

Lemma top_unique (A A' R R' : list (Z * Z)) :
  Permutation (A ++ R) (A' ++ R') ->
  length A = length A' ->
  (forall r a, In r R -> In a A -> lexle r a) ->
  (forall r a, In r R' -> In a A' -> lexle r a) ->
  Permutation A A'.
Proof.
  intros HP Hlen HR HR'.
  pose (srt := @merge_sort _ keyge keyge_dec).
  assert (Hperm : forall l, Permutation (srt l) l)
    by (intros l; apply merge_sort_Permutation).
  assert (Hsorted : forall l, StronglySorted keyge (srt l)).
  { intros l. apply (@StronglySorted_merge_sort _ keyge keyge_dec keyge_trans keyge_total). }
  assert (Happ : forall X Y, (forall r a, In r Y -> In a X -> lexle r a) ->
                   StronglySorted keyge (srt X ++ srt Y)).
  { intros X Y H. apply StronglySorted_app_2; [|apply Hsorted..].
    intros x1 x2 H1 H2. unfold keyge. apply H.
    - apply list_elem_of_In. rewrite <- (Hperm Y). exact H2.
    - apply list_elem_of_In. rewrite <- (Hperm X). exact H1. }
  assert (E : srt A ++ srt R = srt A' ++ srt R').
  { apply (@StronglySorted_unique _ keyge keyge_antisym);
      [apply Happ, HR | apply Happ, HR' |].
    rewrite !Hperm. exact HP. }
  apply app_inj_1 in E.
  - destruct E as [E _]. rewrite <- (Hperm A), <- (Hperm A'), E. reflexivity.
  - rewrite (Permutation_length (Hperm A)), (Permutation_length (Hperm A')).
    exact Hlen.
Qed.

(** ** Permuted process lists *)

Lemma Permutation_list_filter {A} (f : A -> bool) l l' :
  Permutation l l' -> Permutation (List.filter f l) (List.filter f l').
Proof.
  induction 1 as [|x l l' _ IH|x y l|l l' l'' _ IH1 _ IH2]; simpl.
  - constructor.
  - destruct (f x); [constructor|]; exact IH.
  - destruct (f x), (f y); try reflexivity. constructor.
  - etransitivity; eassumption.
Qed.

Lemma scan_order_abort jiffies timeout c tasks tasks' st st0 :
  Permutation tasks tasks' ->
  scan jiffies timeout c tasks st = None ->
  scan jiffies timeout c tasks' st0 = None.
Proof.
  intros HP H. apply scan_none. apply scan_none in H.
  apply existsb_exists in H. destruct H as (t & Ht & Hd).
  apply existsb_exists. exists t. split; [|exact Hd].
  eapply Permutation_in; eassumption.
Qed.

Lemma sum_resident_keys l :
  sum_resident l = fold_right Z.add 0 (map snd (map task_key l)).
Proof.
  induction l as [|p l IH]; simpl; [reflexivity|]. rewrite IH. reflexivity.
Qed.

Lemma sum_Permutation (l l' : list Z) :
  Permutation l l' -> fold_right Z.add 0 l = fold_right Z.add 0 l'.
Proof.
  induction 1; simpl; lia.
Qed.

Lemma kill_selected_ret cfg jiffies st r0 timeout :
  sizes_match st ->
  ret (kill_selected cfg jiffies st (to_int r0) timeout)
  = to_int (r0 - sum_resident (slots_list (selected st))).
Proof.
  intros Hm. unfold kill_selected, slots_list.
  apply kill_fold_ret; [exact Hm | reflexivity].
Qed.

(** X16: the order in which the process list is scanned does not matter to
    the outcome of a pass: the killed processes have the same scores and
    sizes (only processes with equal score and size may stand in for one
    another), and the value returned and the deadline are the same. *)
Theorem outcome_independent_of_scan_order
    (cfg : kconfig) (s : lmk_state) (vm : vm_stat) (jiffies nr_to_scan : Z)
    (tasks tasks' : list task_struct) :
  Permutation tasks tasks' ->
  let r := lowmem_shrink cfg s vm jiffies nr_to_scan tasks in
  let r' := lowmem_shrink cfg s vm jiffies nr_to_scan tasks' in
  Permutation (map task_key (killed r)) (map task_key (killed r'))
  /\ ret r = ret r'
  /\ deathpending_timeout r = deathpending_timeout r'.
Proof.
  intros HP. cbv zeta.
  assert (Hmain : Permutation
            (map task_key (killed (lowmem_shrink cfg s vm jiffies nr_to_scan tasks)))
            (map task_key (killed (lowmem_shrink cfg s vm jiffies nr_to_scan tasks')))
          /\ ret (lowmem_shrink cfg s vm jiffies nr_to_scan tasks)
             = ret (lowmem_shrink cfg s vm jiffies nr_to_scan tasks')).
  { unfold lowmem_shrink.
    destruct ((nr_to_scan <=? 0)
              || (min_score_adj_of (active_tier cfg s vm) =? OOM_SCORE_ADJ_MAX + 1));
      [split; reflexivity|].
    set (c := min_score_adj_of (active_tier cfg s vm)).
    destruct (scan jiffies (lowmem_deathpending_timeout s) c tasks
                (selection_init c)) as [st|] eqn:E.
    2:{ rewrite (scan_order_abort _ _ _ _ _ _ (selection_init c) HP E).
        split; reflexivity. }
    destruct (scan jiffies (lowmem_deathpending_timeout s) c tasks'
                (selection_init c)) as [st'|] eqn:E'.
    2:{ rewrite (scan_order_abort _ _ _ _ _ _ (selection_init c)
                   (Permutation_sym HP) E') in E. discriminate. }
    pose proof (scan_from_init _ _ _ _ _ E) as I.
    pose proof (scan_from_init _ _ _ _ _ E') as I'.
    pose proof (pool_split_scan _ _ _ tasks [] _ _ (sel_inv_init c)
                  (pool_split_init c) E) as (R & HR & HleR & _).
    pose proof (pool_split_scan _ _ _ tasks' [] _ _ (sel_inv_init c)
                  (pool_split_init c) E') as (R' & HR' & HleR' & _).
    simpl app in HR, HR'.
    assert (HK : Permutation (map task_key (slots_list (selected st)))
                             (map task_key (slots_list (selected st')))).
    { apply (top_unique _ _ R R').
      - rewrite <- HR, <- HR'. apply Permutation_map.
        apply Permutation_list_filter. exact HP.
      - rewrite !length_map.
        pose proof (killed_length c tasks cfg jiffies st 0 0 I) as L.
        pose proof (killed_length c tasks' cfg jiffies st' 0 0 I') as L'.
        rewrite kill_selected_killed in L, L'.
        unfold slots_list. rewrite L, L'. unfold eligible_count.
        rewrite (Permutation_length (Permutation_list_filter (eligibleb c) _ _ HP)).
        reflexivity.
      - intros r a Hr Ha. apply HleR; assumption.
      - intros r a Hr Ha. apply HleR'; assumption. }
    split.
    - rewrite !kill_selected_killed. exact HK.
    - rewrite (kill_selected_ret _ _ st _ _ (sel_inv_sizes_match _ _ _ I)).
      rewrite (kill_selected_ret _ _ st' _ _ (sel_inv_sizes_match _ _ _ I')).
      rewrite !sum_resident_keys.
      rewrite (sum_Permutation _ _ (Permutation_map snd HK)). reflexivity. }
  destruct Hmain as [HK Hret]. split; [exact HK|]. split; [exact Hret|].
  rewrite !deadline_by_kills.
  pose proof (Permutation_length HK) as HL. rewrite !length_map in HL.
  destruct (killed (lowmem_shrink cfg s vm jiffies nr_to_scan tasks)),
           (killed (lowmem_shrink cfg s vm jiffies nr_to_scan tasks'));
    simpl in HL; try discriminate; reflexivity.
Qed.

Lemma outcome_independent_of_scan_order_witness :
  ret (lowmem_shrink build_default lmk_init (vm_sample 100 100) 500 128
         scenario_tasks)
  = ret (lowmem_shrink build_default lmk_init (vm_sample 100 100) 500 128
           (rev scenario_tasks)).
Proof.
  destruct (outcome_independent_of_scan_order build_default lmk_init
              (vm_sample 100 100) 500 128 scenario_tasks (rev scenario_tasks))
    as (_ & H & _).
  - apply Permutation_rev.
  - exact H.
Defined.

(* ================================================================== *)
(** * Edge cases of a pass *)

(** X17: a pass never signals a process whose kill is still pending: no
    killed process carries TIF_MEMDIE while [jiffies] has not passed the
    deadline. *)
Theorem pending_victim_not_killed_again
    (cfg : kconfig) (s : lmk_state) (vm : vm_stat) (jiffies nr_to_scan : Z)
    (tasks : list task_struct) (p : task_struct) :
  In p (killed (lowmem_shrink cfg s vm jiffies nr_to_scan tasks)) ->
  TIF_MEMDIE p = false
  \/ time_before_eq jiffies (lowmem_deathpending_timeout s) = false.
Proof.
  intros Hp.
  destruct (TIF_MEMDIE p) eqn:Ed; [|left; reflexivity].
  destruct (time_before_eq jiffies (lowmem_deathpending_timeout s)) eqn:Et;
    [|right; reflexivity].
  exfalso.
  pose proof (killed_eligible _ _ _ _ _ _ _ Hp) as (Hin & Hk & _ & Hr).
  assert (Hd : death_pending jiffies (lowmem_deathpending_timeout s) p = true).
  { unfold death_pending, has_mm. rewrite Hk, Ed, Et.
    unfold resident_pages in Hr. destruct (mm p); [reflexivity | lia]. }
  rewrite (pending_kills_nothing cfg s vm jiffies nr_to_scan tasks p Hin Hd) in Hp.
  destruct Hp.
Qed.

Lemma pending_victim_not_killed_again_witness :
  TIF_MEMDIE dying_victim = false
  \/ time_before_eq 601 (lowmem_deathpending_timeout lmk_pending) = false.
Proof.
  apply (pending_victim_not_killed_again build_default lmk_pending
           (vm_sample 100 100) 601 128 (dying_victim :: scenario_tasks)).
  vm_compute. tauto.
Defined.

(** X18: a pass takes no action, whatever the memory statistics and the
    process list, when one of the two configured lengths is zero or
    negative, and also when the cutoff score of the breached tier is
    [OOM_SCORE_ADJ_MAX + 1], the value the code keeps for no tier: it
    returns the count of reclaimable pages and kills nothing. *)
Theorem nothing_configured_no_action
    (cfg : kconfig) (s : lmk_state) (vm : vm_stat) (jiffies nr_to_scan : Z)
    (tasks : list task_struct) :
  lowmem_adj_size s <= 0 \/ lowmem_minfree_size s <= 0
  \/ (exists t, active_tier cfg s vm = Some t
                /\ aget (lowmem_adj s) (tier_index t) = OOM_SCORE_ADJ_MAX + 1) ->
  lowmem_shrink cfg s vm jiffies nr_to_scan tasks
  = {| ret := to_int (reclaimable vm);
       killed := [];
       deathpending_timeout := lowmem_deathpending_timeout s |}.
Proof.
  intros H.
  assert (Hsz : lowmem_adj_size s <= 0 \/ lowmem_minfree_size s <= 0 ->
                active_tier cfg s vm = None).
  { intros Hs. pose proof (active_tier_value cfg s vm) as Hv.
    destruct (active_tier cfg s vm) as [t|]; [|reflexivity].
    destruct Hv as (Hv & _). rewrite array_size_min in Hv. lia. }
  destruct H as [H | [H | (t & Ht & Hc)]].
  - apply lowmem_shrink_count_only. right. apply Hsz. left. exact H.
  - apply lowmem_shrink_count_only. right. apply Hsz. right. exact H.
  - pose proof (active_tier_value cfg s vm) as Hv. rewrite Ht in Hv.
    destruct Hv as (_ & _ & _ & Hadj).
    unfold lowmem_shrink. rewrite Ht. unfold min_score_adj_of.
    rewrite Hadj, Hc, Z.eqb_refl, orb_true_r. reflexivity.
Qed.

Lemma nothing_configured_no_action_witness :
  lowmem_shrink build_default
    {| lowmem_adj := [0; 1; 6; 12; 16; 17]; lowmem_adj_size := 0;
       lowmem_minfree := default_minfree;
       lowmem_minfree_screen_off := default_minfree;
       lowmem_minfree_screen_on := default_minfree;
       lowmem_minfree_size := 6; lowmem_deathpending_timeout := 0 |}
    (vm_sample 10 10) 500 128 scenario_tasks
  = {| ret := 10000; killed := []; deathpending_timeout := 0 |}.
Proof.
  apply (nothing_configured_no_action build_default
           {| lowmem_adj := [0; 1; 6; 12; 16; 17]; lowmem_adj_size := 0;
              lowmem_minfree := default_minfree;
              lowmem_minfree_screen_off := default_minfree;
              lowmem_minfree_screen_on := default_minfree;
              lowmem_minfree_size := 6; lowmem_deathpending_timeout := 0 |}
           (vm_sample 10 10) 500 128 scenario_tasks).
  left. simpl. lia.
Defined.

(* ================================================================== *)
(** * Properties of [shrink_pages] *)

Section ShrinkPagesProperties.

Variable lru : Type.
Variable isolate_lru_page : page -> lru -> Z * lru.
Variable follow_page : vm_area_struct -> Z -> option page.
Variable PAGE_SIZE : Z.
Variable num_to_scan : Z.
Hypothesis num_to_scan_range : 0 <= num_to_scan < 2 ^ 32.

Local Abbreviation visit := (visit_address lru isolate_lru_page follow_page).
Local Abbreviation vloop := (vma_loop lru isolate_lru_page follow_page PAGE_SIZE).
Local Abbreviation mloop := (mmap_loop lru isolate_lru_page follow_page PAGE_SIZE).
Local Abbreviation below := (below_target lru num_to_scan).


Lemma collected_refl st : collected lru st st.
Proof.
  exists [], []. rewrite !app_nil_r. simpl. rewrite Z.add_0_r.
  repeat split; try constructor; try reflexivity;
    intros H; contradiction H; reflexivity.
Qed.

Lemma visit_address_collected st0 st vma addr :
  isolate_pages_counter lru st0 = 0 ->
  collected lru st0 st -> below st ->
  collected lru st0 (visit vma addr st)
  /\ isolate_pages_counter lru st
     <= isolate_pages_counter lru (visit vma addr st)
     <= isolate_pages_counter lru st + 1.
Proof.
  intros H0 Hc Hb.
  assert (Hsame : collected lru st0 st
                  /\ isolate_pages_counter lru st
                     <= isolate_pages_counter lru st
                     <= isolate_pages_counter lru st + 1)
    by (split; [exact Hc | lia]).
  destruct Hc as (a0 & a1 & E0 & E1 & Ec & F0 & F1 & Z0 & Z0' & Z1 & Z1').
  assert (Hinc : to_uint (isolate_pages_counter lru st + 1)
                 = isolate_pages_counter lru st + 1).
  { unfold to_uint. apply Z.mod_small. unfold below_target in Hb. lia. }
  unfold visit_address.
  destruct (follow_page vma addr) as [pg|]; [|exact Hsame].
  destruct (swappable pg) eqn:Esw; [|exact Hsame].
  destruct (page_zone_id pg =? 0) eqn:Ez0.
  - apply Z.eqb_eq in Ez0.
    destruct (isolate_lru_page pg (lru_lists lru st)) as [rc l].
    destruct (rc =? 0); simpl.
    + split; [|lia].
      exists (a0 ++ [pg]), a1. simpl. rewrite E0, E1, Hinc, Ec, <- app_assoc.
      rewrite length_app. simpl.
      split; [reflexivity|]. split; [reflexivity|]. split; [lia|].
      split; [apply Forall_app; split; [exact F0 | repeat constructor; assumption]|].
      split; [exact F1|].
      split; [intros H; destruct a0; discriminate|].
      split; [intros _; discriminate|].
      split; assumption.
    + split; [|lia].
      exists a0, a1. simpl. repeat split; assumption.
  - destruct (page_zone_id pg =? 1) eqn:Ez1; [|exact Hsame].
    apply Z.eqb_eq in Ez1.
    destruct (isolate_lru_page pg (lru_lists lru st)) as [rc l].
    destruct (rc =? 0); simpl.
    + split; [|lia].
      exists a0, (a1 ++ [pg]). simpl. rewrite E0, E1, Hinc, Ec, <- app_assoc.
      rewrite !length_app. simpl.
      split; [reflexivity|]. split; [reflexivity|]. split; [lia|].
      split; [exact F0|].
      split; [apply Forall_app; split; [exact F1 | repeat constructor; assumption]|].
      split; [assumption|]. split; [assumption|].
      split; [intros H; destruct a1; discriminate|].
      intros _; discriminate.
    + split; [|lia].
      exists a0, a1. simpl. repeat split; assumption.
Qed.

Lemma vma_loop_collected st0 vma n :
  isolate_pages_counter lru st0 = 0 ->
  forall addr st,
    collected lru st0 st -> below st ->
    collected lru st0 (snd (vloop num_to_scan vma n addr st))
    /\ (if fst (vloop num_to_scan vma n addr st)
        then isolate_pages_counter lru (snd (vloop num_to_scan vma n addr st))
             <= Z.max 1 num_to_scan
        else below (snd (vloop num_to_scan vma n addr st))).
Proof.
  intros H0. induction n as [|n IH]; intros addr st Hc Hb; simpl.
  - split; assumption.
  - destruct (visit_address_collected st0 st vma addr H0 Hc Hb) as [Hc' Hr].
    destruct (isolate_pages_counter lru (visit vma addr st) >=? num_to_scan)
      eqn:E; simpl.
    + split; [exact Hc'|]. unfold below_target in Hb. lia.
    + apply IH; [exact Hc'|]. unfold below_target.
      rewrite Z.geb_leb in E. apply Z.leb_gt in E. right. exact E.
Qed.

Lemma mmap_loop_collected st0 mmap :
  isolate_pages_counter lru st0 = 0 ->
  forall st,
    collected lru st0 st -> below st ->
    collected lru st0 (mloop num_to_scan mmap st)
    /\ isolate_pages_counter lru (mloop num_to_scan mmap st)
       <= Z.max 1 num_to_scan.
Proof.
  intros H0. induction mmap as [|vma mmap IH]; intros st Hc Hb; simpl.
  - split; [exact Hc|]. unfold below_target in Hb. lia.
  - pose proof (vma_loop_collected st0 vma
                  (vma_pages PAGE_SIZE vma) H0 (vm_start vma) st Hc Hb) as H.
    destruct (vloop num_to_scan vma (vma_pages PAGE_SIZE vma) (vm_start vma) st)
      as [[|] st']; simpl in H.
    + exact H.
    + apply IH; apply H.
Qed.

(** X19: [shrink_pages] only adds to the two lists, at their tails, pages
    that are evictable, clean, anonymous and not file cache, those of zone 0
    to the first list and those of zone 1 to the second; the value it
    returns is the number of pages it added, and a list that grew has its
    zone pointer set while the zone pointer of a list that did not grow is
    the caller's. *)
Theorem shrink_pages_collects_swappable
    (mmap : list vm_area_struct) (z0 z1 : option Z) (l0 l1 : list page)
    (lists : lru) :
  let st := shrink_pages lru isolate_lru_page follow_page PAGE_SIZE
              mmap z0 l0 z1 l1 lists num_to_scan in
  exists a0 a1 : list page,
    zone0_page_list lru st = l0 ++ a0
    /\ zone1_page_list lru st = l1 ++ a1
    /\ isolate_pages_counter lru st = Z.of_nat (length a0 + length a1)
    /\ Forall (fun pg => swappable pg = true /\ page_zone_id pg = 0) a0
    /\ Forall (fun pg => swappable pg = true /\ page_zone_id pg = 1) a1
    /\ (a0 = [] -> zone_id_0 lru st = z0)
    /\ (a0 <> [] -> zone_id_0 lru st <> None)
    /\ (a1 = [] -> zone_id_1 lru st = z1)
    /\ (a1 <> [] -> zone_id_1 lru st <> None).
Proof.
  cbv zeta. unfold shrink_pages.
  set (st0 := {| isolate_pages_counter := 0; zone_id_0 := z0;
                 zone0_page_list := l0; zone_id_1 := z1;
                 zone1_page_list := l1; lru_lists := lists |}).
  destruct (mmap_loop_collected st0 mmap eq_refl st0 (collected_refl st0))
    as [Hc _]; [left; reflexivity|].
  exact Hc.
Qed.

(** X20: [shrink_pages] isolates at most [num_to_scan] pages (one page when
    [num_to_scan] is 0): it stops as soon as its counter reaches the
    target. *)
Theorem shrink_pages_bounded
    (mmap : list vm_area_struct) (z0 z1 : option Z) (l0 l1 : list page)
    (lists : lru) :
  let st := shrink_pages lru isolate_lru_page follow_page PAGE_SIZE
              mmap z0 l0 z1 l1 lists num_to_scan in
  0 <= isolate_pages_counter lru st <= Z.max 1 num_to_scan
  /\ (1 <= num_to_scan -> isolate_pages_counter lru st <= num_to_scan)
  /\ Z.of_nat (length (zone0_page_list lru st) + length (zone1_page_list lru st))
     <= Z.of_nat (length l0 + length l1) + Z.max 1 num_to_scan.
Proof.
  cbv zeta. unfold shrink_pages.
  set (st0 := {| isolate_pages_counter := 0; zone_id_0 := z0;
                 zone0_page_list := l0; zone_id_1 := z1;
                 zone1_page_list := l1; lru_lists := lists |}).
  destruct (mmap_loop_collected st0 mmap eq_refl st0 (collected_refl st0))
    as [Hc Hb]; [left; reflexivity|].
  destruct Hc as (a0 & a1 & E0 & E1 & Ec & _).
  simpl in E0, E1, Ec. rewrite E0, E1, !length_app.
  split; [lia|]. split; lia.
Qed.

End ShrinkPagesProperties.

Lemma shrink_pages_collects_swappable_witness :
  exists a0 a1 : list page,
    zone0_page_list _
      (shrink_pages _ sample_isolate sample_follow 4096 sample_mmap
         None [] None [] [] 32) = [] ++ a0
    /\ zone1_page_list _
         (shrink_pages _ sample_isolate sample_follow 4096 sample_mmap
            None [] None [] [] 32) = [] ++ a1
    /\ isolate_pages_counter _
         (shrink_pages _ sample_isolate sample_follow 4096 sample_mmap
            None [] None [] [] 32) = Z.of_nat (length a0 + length a1).
Proof.
  destruct (shrink_pages_collects_swappable _ sample_isolate sample_follow
              4096 32 ltac:(lia) sample_mmap None None [] [] [])
    as (a0 & a1 & H0 & H1 & Hc & _).
  exists a0, a1. repeat split; assumption.
Defined.

Lemma shrink_pages_bounded_witness :
  isolate_pages_counter _
    (shrink_pages _ sample_isolate sample_follow 4096 sample_mmap
       None [] None [] [] 1) <= 1.
Proof.
  destruct (shrink_pages_bounded _ sample_isolate sample_follow
              4096 1 ltac:(lia) sample_mmap None None [] [] [])
    as (_ & H & _).
  apply H. lia.
Defined.

